(** * FcmServer: the in-memory token registry and the dispatch routes

    A shallow embedding of [src/server.js]: the two module-level maps
    [tokensByUser] and [metaByToken], the helpers [upsertToken],
    [removeToken] and [ensureStringData], and the five Express routes that
    use them.  Each route is a function from the request body, the inputs
    the environment supplies (the clock, the answer of the messaging
    provider) and the current store to the HTTP response, the new store and
    the provider calls that were issued. *)

From Stdlib Require Import String Ascii ZArith DecimalString.
From stdpp Require Import base option list strings gmap fin_maps.

Set Warnings "-register-all".
Local Open Scope string_scope.

(** ** JavaScript values *)

(** A parsed JSON value, as [express.json()] hands it to a route.
    [JNumber n] is the number that the integral literal [n] parses to;
    objects keep their keys in order. *)
Inductive JsonValue : Type :=
| JNull
| JBool (b : bool)
| JNumber (n : Z)
| JString (s : string)
| JArray (items : list JsonValue)
| JObject (fields : list (string * JsonValue)).

(** Truthiness of a string: every string but the empty one. *)
Definition truthy (s : string) : bool := negb (String.eqb s EmptyString).

(** Truthiness of a JSON value. *)
Definition truthy_json (v : JsonValue) : bool :=
  match v with
  | JNull => false
  | JBool b => b
  | JNumber n => negb (Z.eqb n 0)
  | JString s => truthy s
  | JArray _ | JObject _ => true
  end.

(** [a || b] on strings. *)
Definition or_string (o : option string) (dflt : string) : string :=
  match o with
  | Some s => if truthy s then s else dflt
  | None => dflt
  end.

(** [String.prototype.includes]. *)
Fixpoint includes (s sub : string) : bool :=
  String.prefix sub s ||
  match s with
  | EmptyString => false
  | String _ rest => includes rest sub
  end.

(** A [Set] of strings: its elements in insertion order, each once. *)
Definition Set_add (t : string) (s : list string) : list string :=
  if decide (t ∈ s) then s else s ++ [t].

Definition Set_delete (t : string) (s : list string) : list string :=
  filter (λ x, x ≠ t) s.

Definition Set_size (s : list string) : nat := length s.

(** ** The store *)

(** The object stored per token: [{ userId, platform, updatedAt }]. *)
Record TokenMeta : Type := mkMeta {
  userId : string;
  platform : string;
  updatedAt : string
}.

(** [tokensByUser] maps a userId to its [Set] of tokens, [metaByToken] a
    token to its metadata. *)
Record Store : Type := mkStore {
  tokensByUser : gmap string (list string);
  metaByToken : gmap string TokenMeta
}.

Definition empty_store : Store := mkStore ∅ ∅.

(** [upsertToken({ userId, token, platform })]; [now] is what
    [new Date().toISOString()] returns at the call. *)
Definition upsertToken (now : string) (u t : string) (p : option string)
    (st : Store) : Store :=
  let tbu :=
    if decide (is_Some (tokensByUser st !! u)) then tokensByUser st
    else <[u := []]> (tokensByUser st) in
  let tbu := alter (Set_add t) u tbu in
  mkStore tbu
    (<[t := mkMeta u (or_string p "android") now]> (metaByToken st)).

(** [removeToken({ userId, token })]. *)
Definition removeToken (u t : string) (st : Store) : Store :=
  let tbu :=
    if truthy u && bool_decide (is_Some (tokensByUser st !! u)) then
      let tbu := alter (Set_delete t) u (tokensByUser st) in
      if bool_decide (Set_size (default [] (tbu !! u)) = 0)
      then delete u tbu else tbu
    else tokensByUser st in
  mkStore tbu (delete t (metaByToken st)).

(** The membership snapshot of a user, as the send route takes it:
    [tokensByUser.get(userId)] turned into an array, no tokens when the
    user has no entry. *)
Definition tokensOf (u : string) (st : Store) : list string :=
  default [] (tokensByUser st !! u).

Definition metadataOf (t : string) (st : Store) : option TokenMeta :=
  metaByToken st !! t.

(** ** The messaging provider *)

(** One entry of [resp.responses]: [{ success, messageId?, error? }], the
    error carrying an optional [code]. *)
Record SendError : Type := mkSendError { code : option string }.

Record SendResponse : Type := mkSendResponse {
  success : bool;
  messageId : option string;
  error : option SendError
}.

(** What [sendEachForMulticast] resolves to. *)
Record BatchResponse : Type := mkBatch {
  responses : list SendResponse;
  successCount : nat;
  failureCount : nat
}.

(** A value thrown by the provider, represented by the text [String(e)]
    gives for it. *)
Definition Exn : Type := string.

(** The argument of [sendEachForMulticast] and the argument of [send]. *)
Record MulticastMessage : Type := mkMulticast {
  mc_tokens : list string;
  mc_data : gmap string string;
  mc_android : JsonValue
}.

Record Message : Type := mkMessage {
  msg_token : string;
  msg_data : gmap string string;
  msg_android : JsonValue
}.

Inductive ProviderCall : Type :=
| CallSendEachForMulticast (m : MulticastMessage)
| CallSend (m : Message).

(** ** Requests and responses *)

(** [req.body || {}], with the fields the routes destructure from it;
    [None] is a field that is absent.  The fields hold what the schemas of
    the routes give them: strings for the identifiers, an object for
    [data], any value for [android]. *)
Record Body : Type := mkBody {
  body_userId : option string;
  body_token : option string;
  body_oldToken : option string;
  body_platform : option string;
  body_data : option (gmap string JsonValue);
  body_android : option JsonValue
}.

(** The JSON documents the routes answer with. *)
Inductive ResponseJson : Type :=
| JsonOk
| JsonError (msg : string)
| JsonCounts (succ fail : nat)
| JsonMessageId (id : string).

Record HttpResponse : Type := mkResponse {
  status : nat;
  json : ResponseJson
}.

(** What handling one request amounts to. *)
Record Reply : Type := mkReply {
  response : HttpResponse;
  store : Store;
  calls : list ProviderCall
}.

Definition reply (http : nat) (j : ResponseJson) (st : Store)
    (cs : list ProviderCall) : Reply :=
  mkReply (mkResponse http j) st cs.

(** [android || { priority: "high" }]. *)
Definition high_priority : JsonValue :=
  JObject [("priority", JString "high")].

Definition or_json (o : option JsonValue) (dflt : JsonValue) : JsonValue :=
  match o with
  | Some v => if truthy_json v then v else dflt
  | None => dflt
  end.

(** ** [JSON.stringify] on the integral fragment

    The routes are stated over an arbitrary [JSON.stringify] (a variable of
    the section below).  This instance renders the values of [JsonValue];
    it is what the concrete payloads of this file are run with. *)

(** The double nearest to the positive integer [n], ties to the even
    significand, as the integer it is; [None] when that is past the
    largest double and the number is infinite. *)
Definition nearest_double (n : Z) : option Z :=
  let bits := (Z.log2 n + 1)%Z in
  let d :=
    if (bits <=? 53)%Z then n
    else
      let sh := (bits - 53)%Z in
      let q := Z.shiftr n sh in
      let r := (n - Z.shiftl q sh)%Z in
      let half := Z.shiftl 1 (sh - 1) in
      let q' :=
        if (half <? r)%Z || ((r =? half)%Z && Z.odd q) then (q + 1)%Z else q in
      Z.shiftl q' sh in
  if (d <? 2 ^ 1024)%Z then Some d else None.

Definition rounds_to (v c : Z) : bool :=
  match nearest_double c with
  | Some d => (d =? v)%Z
  | None => false
  end.

Definition decimal (n : Z) : string := NilZero.string_of_int (Z.to_int n).

(** The integer with the fewest significant digits that still reads back
    as the double [v]; of two with as few digits the one nearer to [v],
    the even one when they are as near.  [p] is the power of ten that the
    candidates are multiples of, [fuel] the number of digits left to try. *)
Fixpoint shortest_from (fuel : nat) (v p : Z) : Z :=
  match fuel with
  | O => v
  | S fuel' =>
      let lo := (v / p * p)%Z in
      let hi := (lo + p)%Z in
      let lo_fits := rounds_to v lo in
      let hi_fits := rounds_to v hi in
      if lo_fits && hi_fits then
        if (v - lo <? hi - v)%Z then lo
        else if (hi - v <? v - lo)%Z then hi
        else if Z.even (lo / p) then lo else hi
      else if lo_fits then lo
      else if hi_fits then hi
      else shortest_from fuel' v (p / 10)
  end.

Definition shortest (v : Z) : Z :=
  let digits := String.length (decimal v) in
  shortest_from digits v (10 ^ (Z.of_nat digits - 1)).

Fixpoint strip_zeros (s : string) : string :=
  match s with
  | EmptyString => EmptyString
  | String c rest =>
      match strip_zeros rest with
      | EmptyString =>
          if Ascii.eqb c "0" then EmptyString else String c EmptyString
      | kept => String c kept
      end
  end.

(** [Number::toString] of the positive integral double [v]: the digits
    of [shortest v] up to 21 of them, the exponent form beyond. *)
Definition double_to_string (v : Z) : string :=
  let ds := decimal (shortest v) in
  let n := String.length ds in
  if (n <=? 21)%nat then ds
  else
    match strip_zeros ds with
    | EmptyString => ds
    | String d rest =>
        String d
          (match rest with
           | EmptyString => EmptyString
           | _ => "." ++ rest
           end ++ "e+" ++ decimal (Z.of_nat n - 1))
    end.

(** [JSON.stringify] of the number the literal [n] parses to; an
    infinite number is rendered as [null]. *)
Definition stringify_number (n : Z) : string :=
  if (n =? 0)%Z then "0"
  else
    match nearest_double (Z.abs n) with
    | None => "null"
    | Some v =>
        (if (n <? 0)%Z then "-" else EmptyString) ++ double_to_string v
    end.

Definition dquote : ascii := "034"%char.
Definition backslash : ascii := "092"%char.

Definition hex_digit (n : N) : ascii :=
  ascii_of_N (if (n <? 10)%N then 48 + n else 87 + n)%N.

(** The escape of one character inside a JSON string literal. *)
Definition quote_char (c : ascii) : string :=
  let n := N_of_ascii c in
  if (n =? 34)%N then String backslash (String dquote EmptyString)
  else if (n =? 92)%N then String backslash (String backslash EmptyString)
  else if (n =? 8)%N then String backslash "b"
  else if (n =? 9)%N then String backslash "t"
  else if (n =? 10)%N then String backslash "n"
  else if (n =? 12)%N then String backslash "f"
  else if (n =? 13)%N then String backslash "r"
  else if (n <? 32)%N then
    String backslash
      ("u00" ++ String (hex_digit (n / 16)) (String (hex_digit (n mod 16)) EmptyString))
  else String c EmptyString.

Fixpoint quote_body (s : string) : string :=
  match s with
  | EmptyString => EmptyString
  | String c rest => quote_char c ++ quote_body rest
  end.

Definition quote_string (s : string) : string :=
  String dquote (quote_body s ++ String dquote EmptyString).

Fixpoint JSON_stringify_integral (v : JsonValue) : string :=
  match v with
  | JNull => "null"
  | JBool true => "true"
  | JBool false => "false"
  | JNumber n => stringify_number n
  | JString s => quote_string s
  | JArray items =>
      "[" ++
      (fix elements (l : list JsonValue) : string :=
         match l with
         | [] => EmptyString
         | x :: r =>
             JSON_stringify_integral x ++
             match r with [] => EmptyString | _ => "," ++ elements r end
         end) items ++ "]"
  | JObject fields =>
      "{" ++
      (fix members (l : list (string * JsonValue)) : string :=
         match l with
         | [] => EmptyString
         | (k, x) :: r =>
             quote_string k ++ ":" ++ JSON_stringify_integral x ++
             match r with [] => EmptyString | _ => "," ++ members r end
         end) fields ++ "}"
  end.

(** ** The helpers and routes of [server.js] *)

Section Server.

(** The builtin [JSON.stringify], on the values a JSON body can hold. *)
Variable JSON_stringify : JsonValue → string.

(** [typeof v === "string" ? v : JSON.stringify(v)]. *)
Definition stringValue (v : JsonValue) : string :=
  match v with
  | JString s => s
  | _ => JSON_stringify v
  end.

(** [ensureStringData(data)]: the loop over [Object.entries(data || {})]
    that fills the fresh object [out].  Objects are maps from their own
    enumerable string keys to values; a parsed body can have any key,
    [__proto__] too.  [out] is a plain object: the assignment
    [out[k] = ...] creates the key [k], except for [__proto__], where it
    reaches the setter [Object.prototype] has for that name, which does
    nothing when it is given a string. *)
Definition ensureStringData (data : option (gmap string JsonValue))
    : gmap string string :=
  map_fold
    (λ k v out,
       if decide (k = "__proto__") then out else <[k := stringValue v]> out)
    ∅ (default ∅ data).

(** The code of a failed response, the empty string when the response
    has no error or the error no code; and the test on it that tells a
    token that is not valid anymore. *)
Definition errorCode (r : SendResponse) : string :=
  or_string (error r ≫= code) EmptyString.

Definition invalidTokenCode (c : string) : bool :=
  includes c "registration-token-not-registered" ||
  includes c "invalid-argument".

(** The callback of [resp.responses.forEach((r, idx) => ...)], with
    [tokens] the array taken from the user's set before the provider was
    called; [tokens[idx]] is [undefined] past the end of the array, and
    [metaByToken.get(undefined)] finds nothing. *)
Definition cleanupResponse (tokens : list string) (st : Store)
    (idx : nat) (r : SendResponse) : Store :=
  if negb (success r) then
    let t := tokens !! idx in
    if invalidTokenCode (errorCode r) then
      match t with
      | Some t =>
          match metaByToken st !! t with
          | Some meta =>
              if truthy (userId meta) then removeToken (userId meta) t st
              else st
          | None => st
          end
      | None => st
      end
    else st
  else st.

Fixpoint forEachFrom (tokens : list string) (idx : nat)
    (rs : list SendResponse) (st : Store) : Store :=
  match rs with
  | [] => st
  | r :: rest =>
      forEachFrom tokens (S idx) rest (cleanupResponse tokens st idx r)
  end.

Definition cleanupInvalidTokens (tokens : list string)
    (rs : list SendResponse) (st : Store) : Store :=
  forEachFrom tokens 0 rs st.

(** The part of [POST /notifications/send] after the provider call has
    settled (the body of [try] from the [forEach] on, and [catch]). *)
Definition sendSettled (tokens : list string) (outcome : Exn + BatchResponse)
    (st : Store) : HttpResponse * Store :=
  match outcome with
  | inr resp =>
      (mkResponse 200 (JsonCounts (successCount resp) (failureCount resp)),
       cleanupInvalidTokens tokens (responses resp) st)
  | inl e => (mkResponse 500 (JsonError e), st)
  end.

(** [POST /notifications/send] once the body has passed the check of its
    required fields: the dispatch to all devices of [u].  [outcome] is how
    the call of [sendEachForMulticast] settles, if it is made. *)
Definition sendToUser (u : string) (data : gmap string JsonValue)
    (android : option JsonValue) (outcome : Exn + BatchResponse)
    (st : Store) : Reply :=
  match tokensByUser st !! u with
  | None => reply 404 (JsonError "No tokens for this user") st []
  | Some tokenSet =>
      if bool_decide (Set_size tokenSet = 0) then
        reply 404 (JsonError "No tokens for this user") st []
      else
        let tokens := tokenSet in
        let payloadData := ensureStringData (Some data) in
        let message :=
          mkMulticast tokens payloadData (or_json android high_priority) in
        let '(res, st') := sendSettled tokens outcome st in
        mkReply res st' [CallSendEachForMulticast message]
  end.

(** [POST /notifications/sendToToken] once the body has passed the check
    of its required fields.  [outcome] is how the call of [send] settles. *)
Definition sendToToken (t : string) (data : gmap string JsonValue)
    (android : option JsonValue) (outcome : Exn + string)
    (st : Store) : Reply :=
  let message :=
    mkMessage t (ensureStringData (Some data)) (or_json android high_priority) in
  match outcome with
  | inr messageId => reply 200 (JsonMessageId messageId) st [CallSend message]
  | inl e => reply 500 (JsonError e) st [CallSend message]
  end.

(** [POST /devices/register].  In this and the next routes the check
    [!userId || !token] fails for a field that is absent and for one that
    is the empty string. *)
Definition post_devices_register (now : string) (body : Body) (st : Store)
    : Reply :=
  match body_userId body, body_token body with
  | Some u, Some t =>
      if negb (truthy u) || negb (truthy t) then
        reply 400 (JsonError "userId and token are required") st []
      else
        reply 200 JsonOk
          (upsertToken now u t
             (Some (or_string (body_platform body) "android")) st) []
  | _, _ => reply 400 (JsonError "userId and token are required") st []
  end.

(** [PUT /devices/token]. *)
Definition put_devices_token (now : string) (body : Body) (st : Store)
    : Reply :=
  match body_userId body, body_token body with
  | Some u, Some t =>
      if negb (truthy u) || negb (truthy t) then
        reply 400 (JsonError "userId and token are required") st []
      else
        let st1 :=
          match body_oldToken body with
          | Some old =>
              if truthy old && negb (String.eqb old t)
              then removeToken u old st else st
          | None => st
          end in
        reply 200 JsonOk
          (upsertToken now u t
             (Some (or_string (body_platform body) "android")) st1) []
  | _, _ => reply 400 (JsonError "userId and token are required") st []
  end.

(** [DELETE /devices/unregister]. *)
Definition delete_devices_unregister (body : Body) (st : Store) : Reply :=
  match body_userId body, body_token body with
  | Some u, Some t =>
      if negb (truthy u) || negb (truthy t) then
        reply 400 (JsonError "userId and token are required") st []
      else reply 200 JsonOk (removeToken u t st) []
  | _, _ => reply 400 (JsonError "userId and token are required") st []
  end.

(** [POST /notifications/send]. *)
Definition post_notifications_send (body : Body)
    (outcome : Exn + BatchResponse) (st : Store) : Reply :=
  match body_userId body, body_data body with
  | Some u, Some data =>
      if negb (truthy u) then
        reply 400 (JsonError "userId and data are required") st []
      else sendToUser u data (body_android body) outcome st
  | _, _ => reply 400 (JsonError "userId and data are required") st []
  end.

(** [POST /notifications/sendToToken]. *)
Definition post_notifications_sendToToken (body : Body)
    (outcome : Exn + string) (st : Store) : Reply :=
  match body_token body, body_data body with
  | Some t, Some data =>
      if negb (truthy t) then
        reply 400 (JsonError "token and data are required") st []
      else sendToToken t data (body_android body) outcome st
  | _, _ => reply 400 (JsonError "token and data are required") st []
  end.

(** ** Histories of requests *)

(** What the server can be asked to do.  A handler runs to completion
    unless it awaits: the send route is suspended while the provider
    works, other requests may be served meanwhile, and its continuation
    then runs with the array of tokens it took before.  [Send] is a send
    whose call settles before any other request is served, [SendSettles]
    the continuation of a suspended one. *)
Inductive Event : Type :=
| Register (now : string) (body : Body)
| UpdateToken (now : string) (body : Body)
| Unregister (body : Body)
| Send (body : Body) (outcome : Exn + BatchResponse)
| SendSettles (tokens : list string) (outcome : Exn + BatchResponse)
| SendToToken (body : Body) (outcome : Exn + string).

Definition handle (ev : Event) (st : Store) : Store :=
  match ev with
  | Register now body => store (post_devices_register now body st)
  | UpdateToken now body => store (put_devices_token now body st)
  | Unregister body => store (delete_devices_unregister body st)
  | Send body outcome => store (post_notifications_send body outcome st)
  | SendSettles tokens outcome => snd (sendSettled tokens outcome st)
  | SendToToken body outcome =>
      store (post_notifications_sendToToken body outcome st)
  end.

Fixpoint run (evs : list Event) (st : Store) : Store :=
  match evs with
  | [] => st
  | ev :: rest => run rest (handle ev st)
  end.

(** ** Invariants of the store *)

(** Every key of [tokensByUser] is a truthy userId and holds a set with at
    least one token. *)
Definition sets_wf (st : Store) : Prop :=
  ∀ u l, tokensByUser st !! u = Some l →
    truthy u = true ∧ l ≠ [] ∧ NoDup l.

(** Every token with metadata is in the set of the user its metadata
    names. *)
Definition meta_wf (st : Store) : Prop :=
  ∀ t m, metaByToken st !! t = Some m →
    truthy (userId m) = true ∧ t ∈ tokensOf (userId m) st.

Definition store_wf (st : Store) : Prop := sets_wf st ∧ meta_wf st.

(** Every token in the set of a user has metadata that names this user. *)
Definition members_owned (st : Store) : Prop :=
  ∀ u t, t ∈ tokensOf u st →
    ∃ m, metaByToken st !! t = Some m ∧ userId m = u.

(** The two directions of keeping the indexes in step. *)
Definition member_has_meta (st : Store) : Prop :=
  ∀ u t, t ∈ tokensOf u st → is_Some (metadataOf t st).

Definition meta_has_member (st : Store) : Prop :=
  ∀ t, is_Some (metadataOf t st) → ∃ u, t ∈ tokensOf u st.

(** A history in which a token is only ever named together with the one
    user [own] gives it: the pairs of userId and token that the three
    device routes pass on to [upsertToken] and [removeToken]. *)
Definition named (ev : Event) : list (string * string) :=
  match ev with
  | Register _ body | Unregister body =>
      match body_userId body, body_token body with
      | Some u, Some t => if truthy u && truthy t then [(u, t)] else []
      | _, _ => []
      end
  | UpdateToken _ body =>
      match body_userId body, body_token body with
      | Some u, Some t =>
          if truthy u && truthy t then
            match body_oldToken body with
            | Some old => if truthy old then [(u, old); (u, t)] else [(u, t)]
            | None => [(u, t)]
            end
          else []
      | _, _ => []
      end
  | Send _ _ | SendSettles _ _ | SendToToken _ _ => []
  end.

Definition single_owner (own : string → string) (evs : list Event) : Prop :=
  ∀ ev u t, ev ∈ evs → (u, t) ∈ named ev → own t = u.

(** Tokens in sets belong to the user [own] gives them. *)
Definition sets_follow (own : string → string) (st : Store) : Prop :=
  ∀ u t, t ∈ tokensOf u st → own t = u.

(** The store of a history in which every token keeps its one user. *)
Definition owned_wf (own : string → string) (st : Store) : Prop :=
  store_wf st ∧ sets_follow own st ∧ members_owned st.

(** A batch response whose counters agree with its entries, as the
    provider computes them. *)
Definition counts_agree (resp : BatchResponse) : Prop :=
  successCount resp = length (filter (λ r, success r = true) (responses resp)) ∧
  failureCount resp = length (filter (λ r, success r = false) (responses resp)).

(** ** Notions for the further properties *)

(** A required field that the check of a route turns down: absent, or
    the empty string. *)
Definition missing (o : option string) : Prop :=
  o = None ∨ o = Some EmptyString.

(** A request turned down at the check of its fields: answered 400, the
    store left alone, the provider not called. *)
Definition rejected (r : Reply) (st : Store) : Prop :=
  status (response r) = 400 ∧ store r = st ∧ calls r = [].

(** A response on which the callback of the cleanup acts: a failure with
    the code of a token that is not valid anymore. *)
Definition marksInvalid (r : SendResponse) : bool :=
  negb (success r) && invalidTokenCode (errorCode r).

(** The tokens that the responses [rs], read against [tokens] from index
    [idx] on, mark as not valid anymore. *)
Definition marked (tokens : list string) (idx : nat)
    (rs : list SendResponse) (t : string) : Prop :=
  ∃ j r, rs !! j = Some r ∧ tokens !! (idx + j) = Some t ∧
         marksInvalid r = true.

(** [st'] holds nothing that [st] does not hold: no token in a set, no
    metadata. *)
Definition shrinks (st st' : Store) : Prop :=
  (∀ u t, t ∈ tokensOf u st' → t ∈ tokensOf u st) ∧
  (∀ t m, metadataOf t st' = Some m → metadataOf t st = Some m).


(** No token in a set is the empty string, and no metadata is kept for
    the empty token or holds an empty platform. *)
Definition tokens_truthy (st : Store) : Prop :=
  (∀ u t, t ∈ tokensOf u st → truthy t = true) ∧
  (∀ t m, metadataOf t st = Some m →
     truthy t = true ∧ truthy (platform m) = true).


(** ** Sample requests *)

(** A body with a userId and a token, a clock reading, and three short
    histories: one user registering two devices; a token registered by
    one user, then by another, who then unregisters it; and a user with
    two devices, the first of which is then registered by another user. *)
Definition device_body (u t : string) : Body :=
  mkBody (Some u) (Some t) None None None None.

Definition noon : string := "2024-01-01T12:00:00.000Z".

Definition two_devices : list Event :=
  [Register noon (device_body "alice" "t1");
   Register noon (device_body "alice" "t2")].

Definition handed_over : list Event :=
  [Register noon (device_body "alice" "t1");
   Register noon (device_body "bob" "t1");
   Unregister (device_body "bob" "t1")].

Definition shared_device : list Event :=
  [Register noon (device_body "alice" "t1");
   Register noon (device_body "alice" "t2");
   Register noon (device_body "bob" "t1")].

(** The provider's answer for two tokens, the first not registered
    anymore, the second delivered. *)
Definition first_token_stale : BatchResponse :=
  mkBatch
    [mkSendResponse false None
       (Some (mkSendError (Some "messaging/registration-token-not-registered")));
     mkSendResponse true (Some "projects/demo/messages/1") None]
    1 1.

Definition chat_payload : gmap string JsonValue :=
  <["type" := JString "chat"]> (<["count" := JNumber 3]> ∅).

(** A token refresh by Alice, from [t1] to [t3]; a body for a send to
    Alice; and an answer of the provider for two tokens of which the
    first failed for a reason that says nothing about the token. *)
Definition refresh_body : Body :=
  mkBody (Some "alice") (Some "t3") (Some "t1") None None None.

Definition send_body : Body :=
  mkBody (Some "alice") None None None (Some chat_payload) None.

Definition first_token_throttled : BatchResponse :=
  mkBatch
    [mkSendResponse false None
       (Some (mkSendError (Some "messaging/message-rate-exceeded")));
     mkSendResponse true (Some "projects/demo/messages/2") None]
    1 1.

(** * Properties *)

(** ** Sets *)

Lemma elem_of_Set_add (x t : string) (l : list string) :
  x ∈ Set_add t l ↔ x = t ∨ x ∈ l.
Proof.
  unfold Set_add. case_decide as Hin.
  - split; [by right | intros [-> | ?]; done].
  - rewrite elem_of_app, list_elem_of_singleton. tauto.
Qed.

Lemma NoDup_Set_add (t : string) (l : list string) :
  NoDup l → NoDup (Set_add t l).
Proof.
  intros Hnd. unfold Set_add. case_decide as Hin; [done |].
  apply NoDup_app. split_and!; [done | | apply NoDup_singleton].
  intros x Hx Hx'. apply list_elem_of_singleton in Hx'. by subst.
Qed.

Lemma Set_add_nonempty (t : string) (l : list string) : Set_add t l ≠ [].
Proof.
  intros Heq. assert (Hin : t ∈ Set_add t l) by (apply elem_of_Set_add; by left).
  rewrite Heq in Hin. by apply elem_of_nil in Hin.
Qed.

Lemma Set_add_idemp (t : string) (l : list string) :
  Set_add t (Set_add t l) = Set_add t l.
Proof.
  unfold Set_add at 1. rewrite decide_True; [done |].
  apply elem_of_Set_add. by left.
Qed.

Lemma elem_of_Set_delete (x t : string) (l : list string) :
  x ∈ Set_delete t l ↔ x ≠ t ∧ x ∈ l.
Proof. unfold Set_delete. by rewrite list_elem_of_filter. Qed.

Lemma NoDup_Set_delete (t : string) (l : list string) :
  NoDup l → NoDup (Set_delete t l).
Proof. apply NoDup_filter. Qed.

Lemma Set_delete_absent (t : string) (l : list string) :
  t ∉ l → Set_delete t l = l.
Proof.
  unfold Set_delete. induction l as [| x l IH]; intros Hnotin; [done |].
  apply not_elem_of_cons in Hnotin as [Hne Hnotin].
  rewrite filter_cons_True by done. by rewrite IH.
Qed.

Lemma Set_delete_only (t : string) : Set_delete t [t] = [].
Proof. unfold Set_delete. by rewrite filter_cons_False by (intros H; by apply H). Qed.

Lemma truthy_true (s : string) : truthy s = true ↔ s ≠ EmptyString.
Proof.
  unfold truthy. rewrite negb_true_iff.
  destruct (String.eqb_spec s EmptyString); split; congruence.
Qed.

(** ** What [upsertToken] and [removeToken] leave in the two maps *)

Lemma upsertToken_sets_eq now u t p st :
  tokensByUser (upsertToken now u t p st) !! u = Some (Set_add t (tokensOf u st)).
Proof.
  unfold upsertToken, tokensOf. simpl. rewrite lookup_alter_eq.
  case_decide as Hu.
  - destruct Hu as [l Hl]. by rewrite Hl.
  - rewrite lookup_insert_eq. apply eq_None_not_Some in Hu. by rewrite Hu.
Qed.

Lemma upsertToken_sets_ne now u t p st u' :
  u ≠ u' →
  tokensByUser (upsertToken now u t p st) !! u' = tokensByUser st !! u'.
Proof.
  intros Hne. unfold upsertToken. simpl. rewrite lookup_alter_ne by done.
  case_decide; [done |]. by rewrite lookup_insert_ne.
Qed.

Lemma upsertToken_meta now u t p st :
  metaByToken (upsertToken now u t p st)
  = <[t := mkMeta u (or_string p "android") now]> (metaByToken st).
Proof. done. Qed.

Lemma tokensOf_upsertToken now u t p st u' :
  tokensOf u' (upsertToken now u t p st)
  = if decide (u = u') then Set_add t (tokensOf u st) else tokensOf u' st.
Proof.
  unfold tokensOf at 1. case_decide as Hu.
  - subst. by rewrite upsertToken_sets_eq.
  - by rewrite upsertToken_sets_ne.
Qed.

Lemma removeToken_meta u t st :
  metaByToken (removeToken u t st) = delete t (metaByToken st).
Proof. done. Qed.

Lemma removeToken_sets_ne u t st u' :
  u ≠ u' →
  tokensByUser (removeToken u t st) !! u' = tokensByUser st !! u'.
Proof.
  intros Hne. unfold removeToken. simpl.
  destruct (truthy u && _); [| done].
  case_bool_decide.
  - rewrite lookup_delete_ne by done. by rewrite lookup_alter_ne.
  - by rewrite lookup_alter_ne.
Qed.

Lemma removeToken_sets_eq u t st :
  truthy u = true →
  tokensByUser (removeToken u t st) !! u
  = match tokensByUser st !! u with
    | Some l => if decide (Set_delete t l = []) then None else Some (Set_delete t l)
    | None => None
    end.
Proof.
  intros Hu. unfold removeToken. cbn [tokensByUser]. rewrite Hu. cbn [andb].
  destruct (tokensByUser st !! u) as [l |] eqn:Hl.
  - rewrite bool_decide_eq_true_2 by eauto.
    rewrite lookup_alter_eq, Hl. cbn [fmap option_fmap option_map default].
    unfold Set_size.
    case_bool_decide as Hsz; case_decide as Hd.
    + apply lookup_delete_eq.
    + destruct (Set_delete t l); done.
    + rewrite Hd in Hsz. done.
    + by rewrite lookup_alter_eq, Hl.
  - rewrite bool_decide_eq_false_2 by (by intros [? ?]).
    done.
Qed.

Lemma removeToken_falsy u t st :
  truthy u = false →
  tokensByUser (removeToken u t st) = tokensByUser st.
Proof. intros Hu. unfold removeToken. simpl. by rewrite Hu. Qed.

Lemma tokensOf_removeToken u t st u' :
  truthy u = true →
  tokensOf u' (removeToken u t st)
  = if decide (u = u') then Set_delete t (tokensOf u st) else tokensOf u' st.
Proof.
  intros Hu. unfold tokensOf at 1. case_decide as Hd.
  - subst. rewrite removeToken_sets_eq by done. unfold tokensOf.
    destruct (tokensByUser st !! u') as [l |]; [| done].
    case_decide as He; simpl; [by rewrite He | done].
  - by rewrite removeToken_sets_ne.
Qed.

(** ** Preservation of the invariants *)

Lemma store_wf_empty : store_wf empty_store.
Proof. split; intros ? ? H; cbn in H; by rewrite lookup_empty in H. Qed.

Lemma upsertToken_wf now u t p st :
  truthy u = true → store_wf st → store_wf (upsertToken now u t p st).
Proof.
  intros Hu [Hsets Hmeta]. split.
  - intros u' l Hl. destruct (decide (u = u')) as [<- | Hne].
    + rewrite upsertToken_sets_eq in Hl. injection Hl as <-.
      split_and!; [done | apply Set_add_nonempty |].
      apply NoDup_Set_add. unfold tokensOf.
      destruct (tokensByUser st !! u) as [l0 |] eqn:Hl0; simpl.
      * by apply (Hsets u l0).
      * apply NoDup_nil_2.
    + rewrite upsertToken_sets_ne in Hl by done. by apply (Hsets u' l).
  - intros t' m. rewrite upsertToken_meta, lookup_insert.
    case_decide as Ht; intros Hm.
    + injection Hm as <-. subst t'. split; [done |]. simpl.
      rewrite tokensOf_upsertToken, decide_True by done.
      apply elem_of_Set_add. by left.
    + destruct (Hmeta t' m Hm) as [Hum Hin]. split; [done |].
      rewrite tokensOf_upsertToken. case_decide as Hd; [| done].
      apply elem_of_Set_add. right. by rewrite Hd.
Qed.

Lemma removeToken_wf u t st : store_wf st → store_wf (removeToken u t st).
Proof.
  intros [Hsets Hmeta].
  destruct (truthy u) eqn:Hu.
  - split.
    + intros u' l Hl. destruct (decide (u = u')) as [<- | Hne].
      * rewrite removeToken_sets_eq in Hl by done.
        destruct (tokensByUser st !! u) as [l0 |] eqn:Hl0; [| done].
        case_decide as Hd; [done |]. injection Hl as <-.
        split_and!; [done | done |]. apply NoDup_Set_delete.
        by apply (Hsets u l0).
      * rewrite removeToken_sets_ne in Hl by done. by apply (Hsets u' l).
    + intros t' m. rewrite removeToken_meta, lookup_delete.
      case_decide as Ht; [done |]. intros Hm.
      destruct (Hmeta t' m Hm) as [Hum Hin]. split; [done |].
      rewrite tokensOf_removeToken by done. case_decide as Hd; [| done].
      apply elem_of_Set_delete. split; [congruence | by rewrite Hd].
  - split.
    + intros u' l. rewrite removeToken_falsy by done. apply Hsets.
    + intros t' m. rewrite removeToken_meta, lookup_delete.
      case_decide as Ht; [done |]. intros Hm.
      unfold tokensOf. rewrite removeToken_falsy by done.
      by apply Hmeta.
Qed.

Lemma cleanupResponse_wf tokens st idx r :
  store_wf st → store_wf (cleanupResponse tokens st idx r).
Proof.
  intros Hwf. unfold cleanupResponse.
  repeat (case_match; try done). by apply removeToken_wf.
Qed.

(** *** A property kept by the helpers is kept by every request

    The routes change the store only through [upsertToken], [removeToken]
    and the cleanup of a settled send, and the two helpers are only
    called with a truthy userId and a pair that [named] lists. *)

Lemma forEachFrom_preserves (P : Store → Prop) tokens rs :
  (∀ st idx r, P st → P (cleanupResponse tokens st idx r)) →
  ∀ idx st, P st → P (forEachFrom tokens idx rs st).
Proof.
  intros Hstep. induction rs as [| r rs IH]; intros idx st HP; simpl; [done |].
  by apply IH, Hstep.
Qed.

Lemma sendSettled_preserves (P : Store → Prop) tokens outcome st :
  (∀ st idx r, P st → P (cleanupResponse tokens st idx r)) →
  P st → P (snd (sendSettled tokens outcome st)).
Proof.
  intros Hstep HP. destruct outcome as [e | resp]; simpl; [done |].
  unfold cleanupInvalidTokens. by apply forEachFrom_preserves.
Qed.

Lemma sendToUser_store u data android outcome st :
  store (sendToUser u data android outcome st) = st ∨
  store (sendToUser u data android outcome st)
  = snd (sendSettled (tokensOf u st) outcome st).
Proof.
  unfold sendToUser, tokensOf.
  destruct (tokensByUser st !! u) as [l |]; [| by left].
  case_bool_decide; [by left |]. right. simpl.
  by destruct (sendSettled l outcome st).
Qed.

Ltac route_fields b :=
  let u := fresh "u" in
  let t := fresh "t" in
  let Hu := fresh "Hu" in
  let Ht := fresh "Ht" in
  destruct (body_userId b) as [u |], (body_token b) as [t |]; try done;
  destruct (truthy u) eqn:Hu, (truthy t) eqn:Ht; try done;
  simpl in *.

Lemma handle_preserves (P : Store → Prop) ev st :
  (∀ now u t p st, truthy u = true → (u, t) ∈ named ev →
     P st → P (upsertToken now u t p st)) →
  (∀ u t st, truthy u = true → (u, t) ∈ named ev →
     P st → P (removeToken u t st)) →
  (∀ tokens st idx r, P st → P (cleanupResponse tokens st idx r)) →
  P st → P (handle ev st).
Proof.
  intros Hupsert Hremove Hclean HP.
  destruct ev as [now b | now b | b | b o | tokens o | b o]; simpl in *.
  - unfold post_devices_register. route_fields b.
    apply Hupsert; try done. set_solver.
  - unfold put_devices_token. route_fields b.
    destruct (body_oldToken b) as [old |];
      [| apply Hupsert; try done; set_solver].
    destruct (truthy old) eqn:Hold; simpl;
      [| apply Hupsert; try done; set_solver].
    apply Hupsert; try done; [set_solver |].
    destruct (negb _); [| done]. apply Hremove; try done. set_solver.
  - unfold delete_devices_unregister. route_fields b.
    apply Hremove; try done. set_solver.
  - unfold post_notifications_send.
    destruct (body_userId b) as [u |], (body_data b) as [d |]; try done.
    destruct (truthy u); [| done]. simpl.
    destruct (sendToUser_store u d (body_android b) o st) as [-> | ->];
      [done | apply sendSettled_preserves; [apply Hclean | done]].
  - apply sendSettled_preserves; [apply Hclean | done].
  - unfold post_notifications_sendToToken.
    destruct (body_token b) as [t |], (body_data b) as [d |]; try done.
    destruct (truthy t); [| done]. simpl. by destruct o.
Qed.

Lemma handle_wf ev st : store_wf st → store_wf (handle ev st).
Proof.
  apply handle_preserves.
  - intros now u t p st' Hu _. by apply upsertToken_wf.
  - intros u t st' _ _. apply removeToken_wf.
  - intros tokens st' idx r. apply cleanupResponse_wf.
Qed.

Lemma run_wf evs : ∀ st, store_wf st → store_wf (run evs st).
Proof.
  induction evs as [| ev evs IH]; intros st Hwf; simpl; [done |].
  by apply IH, handle_wf.
Qed.

Lemma owned_wf_empty own : owned_wf own empty_store.
Proof.
  split_and!; [apply store_wf_empty | |];
    intros u t Hin; unfold tokensOf in Hin; cbn in Hin;
    rewrite lookup_empty in Hin; by apply elem_of_nil in Hin.
Qed.

Lemma upsertToken_owned own now u t p st :
  truthy u = true → own t = u →
  owned_wf own st → owned_wf own (upsertToken now u t p st).
Proof.
  intros Hu Hown (Hwf & Hfollow & Hmem).
  assert (Hfollow' : sets_follow own (upsertToken now u t p st)).
  { intros u' t'. rewrite tokensOf_upsertToken. case_decide as Hd.
    - subst u'. rewrite elem_of_Set_add. intros [-> | Hin]; [done |].
      by apply Hfollow.
    - apply Hfollow. }
  split_and!; [by apply upsertToken_wf | done |].
  intros u' t' Hin. rewrite upsertToken_meta, lookup_insert.
  case_decide as Ht.
  - subst t'. eexists. split; [done |]. simpl.
    rewrite <- Hown. by apply (Hfollow' u' t).
  - apply Hmem. rewrite tokensOf_upsertToken in Hin.
    case_decide as Hd; [| done]. subst u'.
    apply elem_of_Set_add in Hin as [-> | Hin]; done.
Qed.

Lemma removeToken_owned own u t st :
  truthy u = true → own t = u →
  owned_wf own st → owned_wf own (removeToken u t st).
Proof.
  intros Hu Hown (Hwf & Hfollow & Hmem).
  split_and!; [by apply removeToken_wf | |].
  - intros u' t'. rewrite tokensOf_removeToken by done. case_decide as Hd.
    + subst u'. rewrite elem_of_Set_delete. intros [_ Hin]. by apply Hfollow.
    + apply Hfollow.
  - intros u' t' Hin. rewrite tokensOf_removeToken in Hin by done.
    rewrite removeToken_meta.
    assert (t' ≠ t ∧ t' ∈ tokensOf u' st) as [Hne Hin'].
    { case_decide as Hd.
      - subst u'. by apply elem_of_Set_delete in Hin.
      - split; [| done]. intros ->. apply Hd. rewrite <- Hown.
        by apply (Hfollow u' t). }
    rewrite lookup_delete_ne by done. by apply Hmem.
Qed.

Lemma cleanupResponse_owned own tokens st idx r :
  owned_wf own st → owned_wf own (cleanupResponse tokens st idx r).
Proof.
  intros Hown. unfold cleanupResponse.
  destruct (negb (success r)); [| done].
  destruct (invalidTokenCode (errorCode r)); [| done].
  destruct (tokens !! idx) as [t |]; [| done].
  destruct (metaByToken st !! t) as [m |] eqn:Hm; [| done].
  destruct (truthy (userId m)) eqn:Hu; [| done].
  apply removeToken_owned; [done | | done].
  destruct Hown as ([_ Hmeta] & Hfollow & _).
  apply Hfollow. by apply (Hmeta t m).
Qed.

Lemma handle_owned own ev st :
  (∀ u t, (u, t) ∈ named ev → own t = u) →
  owned_wf own st → owned_wf own (handle ev st).
Proof.
  intros Hnamed. apply handle_preserves.
  - intros now u t p st' Hu Hin. apply upsertToken_owned; [done | by apply Hnamed].
  - intros u t st' Hu Hin. apply removeToken_owned; [done | by apply Hnamed].
  - intros tokens st' idx r. apply cleanupResponse_owned.
Qed.

Lemma run_owned own evs : ∀ st,
  single_owner own evs → owned_wf own st → owned_wf own (run evs st).
Proof.
  induction evs as [| ev evs IH]; intros st Hsingle Hown; simpl; [done |].
  apply IH.
  - intros ev' u t Hin. apply Hsingle. by right.
  - apply handle_owned; [| done]. intros u t. apply Hsingle. by left.
Qed.

Lemma removeToken_absent u t st :
  sets_wf st → t ∉ tokensOf u st → metaByToken st !! t = None →
  removeToken u t st = st.
Proof.
  intros Hsets Hnotin Hmeta. destruct st as [tbu meta].
  unfold removeToken, tokensOf in *. cbn [tokensByUser metaByToken] in *.
  f_equal; [| by apply delete_id].
  destruct (truthy u); [| done]. cbn [andb].
  case_bool_decide as Hhas; [| done]. destruct Hhas as [l Hl].
  rewrite Hl in Hnotin. simpl in Hnotin.
  assert (Hsame : alter (Set_delete t) u tbu = tbu).
  { apply map_eq. intros u'. rewrite lookup_alter. case_decide as Hd; [| done].
    subst u'. rewrite Hl. simpl. by rewrite Set_delete_absent. }
  rewrite Hsame, Hl. simpl.
  rewrite bool_decide_eq_false_2; [done |].
  destruct (Hsets u l Hl) as (_ & Hne & _). unfold Set_size.
  by destruct l.
Qed.

(** ** The registry *)

(** C1, as amended.  After every history of requests from the empty
    store, every token that has metadata is in the set of the user its
    metadata names, so in some user's set.  The converse, that every token
    in a user's set has metadata, holds after the histories in which each
    token is only ever named with one userId; its metadata then names that
    user. *)
Theorem metadata_implies_membership (evs : list Event) :
  let st := run evs empty_store in
  (∀ t m, metadataOf t st = Some m → t ∈ tokensOf (userId m) st) ∧
  meta_has_member st ∧
  (∀ own, single_owner own evs → member_has_meta st ∧ members_owned st).
Proof.
  intros st.
  assert (Hwf : store_wf st) by apply run_wf, store_wf_empty.
  destruct Hwf as [_ Hmeta]. split_and!.
  - intros t m Hm. by apply (Hmeta t m).
  - intros t [m Hm]. exists (userId m). by apply (Hmeta t m).
  - intros own Hsingle.
    destruct (run_owned own evs empty_store Hsingle (owned_wf_empty own))
      as (_ & _ & Hmem).
    split; [| done]. intros u t Hin.
    destruct (Hmem u t Hin) as (m & Hm & _). by exists m.
Qed.

(** C2.  Registering a token under [u] and then under [u2] leaves its
    metadata naming [u2], and the token is still in the set of [u] (and
    in the set of [u2]). *)
Theorem upsert_transfers_ownership (now1 now2 u u2 t : string)
    (p : option string) (st : Store) :
  let st' := upsertToken now2 u2 t p (upsertToken now1 u t p st) in
  userId <$> metadataOf t st' = Some u2 ∧
  t ∈ tokensOf u st' ∧
  t ∈ tokensOf u2 st'.
Proof.
  intros st'. unfold st', metadataOf. split_and!.
  - by rewrite upsertToken_meta, lookup_insert_eq.
  - rewrite tokensOf_upsertToken. case_decide.
    + apply elem_of_Set_add. by left.
    + rewrite tokensOf_upsertToken, decide_True by done.
      apply elem_of_Set_add. by left.
  - rewrite tokensOf_upsertToken, decide_True by done.
    apply elem_of_Set_add. by left.
Qed.

(** C6.  A second [upsertToken] with the same arguments leaves
    [tokensByUser] as the first one left it, so the user's set too, and
    changes in [metaByToken] only the [updatedAt] of the token's entry. *)
Theorem upsert_idempotent (now1 now2 u t : string) (p : option string)
    (st : Store) :
  let st1 := upsertToken now1 u t p st in
  let st2 := upsertToken now2 u t p st1 in
  tokensByUser st2 = tokensByUser st1 ∧
  tokensOf u st2 = tokensOf u st1 ∧
  metadataOf t st1 = Some (mkMeta u (or_string p "android") now1) ∧
  metadataOf t st2 = Some (mkMeta u (or_string p "android") now2) ∧
  (∀ t', t' ≠ t → metadataOf t' st2 = metadataOf t' st1).
Proof.
  intros st1 st2.
  assert (Hsets : tokensByUser st2 = tokensByUser st1).
  { apply map_eq. intros u'. unfold st2. destruct (decide (u = u')) as [<- | Hne].
    - rewrite upsertToken_sets_eq. unfold st1 at 2.
      rewrite upsertToken_sets_eq. unfold st1.
      rewrite tokensOf_upsertToken, decide_True by done.
      by rewrite Set_add_idemp.
    - by rewrite upsertToken_sets_ne. }
  unfold metadataOf, tokensOf. split_and!.
  - done.
  - by rewrite Hsets.
  - unfold st1. by rewrite upsertToken_meta, lookup_insert_eq.
  - unfold st2. by rewrite upsertToken_meta, lookup_insert_eq.
  - intros t' Hne. unfold st2. by rewrite upsertToken_meta, lookup_insert_ne.
Qed.

(** C7.  For a userId that passes the routes' check (a non-empty one),
    [removeToken] after [upsertToken] leaves the token neither in the
    user's set nor with metadata, and so does every register request the
    server accepts when it is followed by the unregister request of the
    same body; [removeToken] deletes the metadata of the token whatever
    userId it is given; and after every history of requests,
    [removeToken] of a token that is not in the user's set and has no
    metadata changes nothing. *)
Theorem removeToken_undoes_upsert :
  (∀ now u t p st, truthy u = true →
     let st' := removeToken u t (upsertToken now u t p st) in
     (t ∉ tokensOf u st') ∧ metadataOf t st' = None) ∧
  (∀ now body u t st,
     body_userId body = Some u → body_token body = Some t →
     status (response (post_devices_register now body st)) = 200 →
     let st' :=
       store (delete_devices_unregister body
                (store (post_devices_register now body st))) in
     (t ∉ tokensOf u st') ∧ metadataOf t st' = None) ∧
  (∀ u t st, metadataOf t (removeToken u t st) = None) ∧
  (∀ evs u t,
     let st := run evs empty_store in
     t ∉ tokensOf u st → metadataOf t st = None → removeToken u t st = st).
Proof.
  assert (Hundo : ∀ now u t p st, truthy u = true →
     let st' := removeToken u t (upsertToken now u t p st) in
     (t ∉ tokensOf u st') ∧ metadataOf t st' = None).
  { intros now u t p st Hu st'. unfold st', metadataOf. split.
    - rewrite tokensOf_removeToken, decide_True by done.
      rewrite elem_of_Set_delete. by intros [? _].
    - by rewrite removeToken_meta, lookup_delete_eq. }
  split_and!.
  - exact Hundo.
  - intros now body u t st Hbu Hbt.
    unfold post_devices_register, delete_devices_unregister.
    rewrite Hbu, Hbt.
    destruct (truthy u) eqn:Hu, (truthy t) eqn:Ht; simpl; try discriminate.
    intros _. by apply Hundo.
  - intros u t st. unfold metadataOf.
    by rewrite removeToken_meta, lookup_delete_eq.
  - intros evs u t st Hnotin Hmeta. apply removeToken_absent; [| done | done].
    apply run_wf, store_wf_empty.
Qed.

(** C8.  After every history of requests from the empty store no key of
    [tokensByUser] holds an empty set, so a user has an entry exactly when
    the user has a token; a user without an entry has no tokens; and
    [removeToken] of a user's only token deletes the user's key. *)
Theorem no_empty_token_sets (evs : list Event) :
  let st := run evs empty_store in
  (∀ u l, tokensByUser st !! u = Some l → l ≠ []) ∧
  (∀ u, is_Some (tokensByUser st !! u) ↔ tokensOf u st ≠ []) ∧
  (∀ u, tokensByUser st !! u = None → tokensOf u st = []) ∧
  (∀ u t, tokensOf u st = [t] →
     tokensByUser (removeToken u t st) !! u = None).
Proof.
  intros st.
  assert (Hwf : store_wf st) by apply run_wf, store_wf_empty.
  destruct Hwf as [Hsets _]. split_and!.
  - intros u l Hl. by destruct (Hsets u l Hl) as (_ & ? & _).
  - intros u. unfold tokensOf. split.
    + intros [l Hl]. rewrite Hl. simpl. by destruct (Hsets u l Hl) as (_ & ? & _).
    + destruct (tokensByUser st !! u); [eauto | done].
  - intros u Hnone. unfold tokensOf. by rewrite Hnone.
  - intros u t Hone. unfold tokensOf in Hone.
    destruct (tokensByUser st !! u) as [l |] eqn:Hl; [| done].
    simpl in Hone. subst l. destruct (Hsets u [t] Hl) as (Hu & _ & _).
    rewrite removeToken_sets_eq, Hl by done.
    by rewrite Set_delete_only, decide_True.
Qed.

(** ** The dispatch routes *)

Lemma post_notifications_send_valid body u data outcome st :
  body_userId body = Some u → truthy u = true → body_data body = Some data →
  post_notifications_send body outcome st
  = sendToUser u data (body_android body) outcome st.
Proof.
  intros Hu Htruthy Hdata. unfold post_notifications_send.
  by rewrite Hu, Hdata, Htruthy.
Qed.

Lemma post_notifications_sendToToken_valid body t data outcome st :
  body_token body = Some t → truthy t = true → body_data body = Some data →
  post_notifications_sendToToken body outcome st
  = sendToToken t data (body_android body) outcome st.
Proof.
  intros Ht Htruthy Hdata. unfold post_notifications_sendToToken.
  by rewrite Ht, Hdata, Htruthy.
Qed.

Lemma ensureStringData_fmap (data : gmap string JsonValue) :
  ensureStringData (Some data) = stringValue <$> delete "__proto__" data.
Proof.
  unfold ensureStringData. simpl.
  apply (map_fold_weak_ind
           (λ out m, out = stringValue <$> delete "__proto__" m)).
  - by rewrite delete_empty, fmap_empty.
  - intros k v m out _ ->. case_decide as Hk.
    + subst k. by rewrite delete_insert_eq.
    + by rewrite delete_insert_ne, fmap_insert.
Qed.

Lemma ensureStringData_lookup (data : gmap string JsonValue) (k : string) :
  ensureStringData (Some data) !! k
  = if decide (k = "__proto__") then None else stringValue <$> data !! k.
Proof.
  rewrite ensureStringData_fmap, lookup_fmap, lookup_delete.
  case_decide as Hd; case_decide as Hk; try done; by subst.
Qed.

Lemma sendToUser_with_tokens u data android outcome st :
  tokensOf u st ≠ [] →
  sendToUser u data android outcome st
  = mkReply (fst (sendSettled (tokensOf u st) outcome st))
      (snd (sendSettled (tokensOf u st) outcome st))
      [CallSendEachForMulticast
         (mkMulticast (tokensOf u st) (ensureStringData (Some data))
            (or_json android high_priority))].
Proof.
  unfold sendToUser, tokensOf. intros Hne.
  destruct (tokensByUser st !! u) as [l |]; [| done]. simpl in *.
  rewrite bool_decide_eq_false_2 by (unfold Set_size; by destruct l).
  by destruct (sendSettled l outcome st).
Qed.

(** C4.  When the user has no entry in [tokensByUser], or an entry with
    an empty set, the dispatch answers 404 with the no-tokens error, calls
    the provider not at all and leaves the store as it is; so does the
    route for a body that passes its check. *)
Theorem sendToUser_no_tokens (u : string) (data : gmap string JsonValue)
    (android : option JsonValue) (outcome : Exn + BatchResponse) (st : Store) :
  tokensOf u st = [] →
  sendToUser u data android outcome st
  = mkReply (mkResponse 404 (JsonError "No tokens for this user")) st [] ∧
  (∀ body, body_userId body = Some u → truthy u = true →
     body_data body = Some data → body_android body = android →
     post_notifications_send body outcome st
     = mkReply (mkResponse 404 (JsonError "No tokens for this user")) st []).
Proof.
  intros Hnone.
  assert (Hcore : sendToUser u data android outcome st
    = mkReply (mkResponse 404 (JsonError "No tokens for this user")) st []).
  { unfold sendToUser, tokensOf in *.
    destruct (tokensByUser st !! u) as [l |]; [| done].
    simpl in Hnone. by subst l. }
  split; [done |]. intros body Hu Htruthy Hdata <-.
  by rewrite (post_notifications_send_valid body u data).
Qed.

(** C5.  A payload whose one key is [__proto__], with the string [x]
    for its value, is normalised to the empty payload: the key and its
    string are dropped, and the call of [send] and the call of
    [sendEachForMulticast] for it carry no data.  For every other key
    [ensureStringData] does what the claim says: the key is kept with the
    value [stringValue] makes of it, a string staying the string it is and
    every other value becoming what [JSON.stringify] returns for it; with
    [JSON.stringify(3)] being ["3"], the payload of [type: "chat"] and
    [count: 3] becomes that of [type: "chat"] and [count: "3"]; and the
    two dispatches both hand [ensureStringData] of the payload to the
    provider. *)
Theorem ensureStringData_spec :
  (let data : gmap string JsonValue := {["__proto__" := JString "x"]} in
   data !! "__proto__" = Some (JString "x") ∧
   ensureStringData (Some data) = ∅ ∧
   ensureStringData (Some data) !! "__proto__"
   ≠ stringValue <$> data !! "__proto__" ∧
   (∀ t android outcome st,
      calls (sendToToken t data android outcome st)
      = [CallSend (mkMessage t ∅ (or_json android high_priority))]) ∧
   (∀ u android outcome st, tokensOf u st ≠ [] →
      calls (sendToUser u data android outcome st)
      = [CallSendEachForMulticast
           (mkMulticast (tokensOf u st) ∅ (or_json android high_priority))])) ∧
  (∀ data, ensureStringData (Some data) !! "__proto__" = None) ∧
  (∀ data k, k ≠ "__proto__" →
     ensureStringData (Some data) !! k = stringValue <$> data !! k) ∧
  ensureStringData None = ∅ ∧
  (∀ s, stringValue (JString s) = s) ∧
  (∀ v, (∀ s, v ≠ JString s) → stringValue v = JSON_stringify v) ∧
  (JSON_stringify (JNumber 3) = "3" →
   ensureStringData
     (Some (<["type" := JString "chat"]> (<["count" := JNumber 3]> ∅)))
   = <["type" := "chat"]> (<["count" := "3"]> ∅)) ∧
  (∀ u data android outcome st, tokensOf u st ≠ [] →
     ∃ m, calls (sendToUser u data android outcome st)
          = [CallSendEachForMulticast m] ∧
          mc_data m = ensureStringData (Some data)) ∧
  (∀ t data android outcome st,
     ∃ m, calls (sendToToken t data android outcome st) = [CallSend m] ∧
          msg_data m = ensureStringData (Some data)).
Proof.
  assert (Hdrop : ensureStringData (Some {["__proto__" := JString "x"]}) = ∅).
  { by rewrite ensureStringData_fmap, delete_singleton_eq, fmap_empty. }
  split; [cbv zeta; split_and! | clear Hdrop; split_and!].
  - apply lookup_singleton_eq.
  - exact Hdrop.
  - rewrite Hdrop, lookup_empty, lookup_singleton_eq. done.
  - intros t android outcome st. unfold sendToToken. rewrite Hdrop.
    by destruct outcome.
  - intros u android outcome st Hne.
    rewrite sendToUser_with_tokens by done. simpl. by rewrite Hdrop.
  - intros data. by rewrite ensureStringData_lookup, decide_True.
  - intros data k Hk. by rewrite ensureStringData_lookup, decide_False.
  - done.
  - done.
  - intros v Hv. destruct v; try done. by destruct (Hv s).
  - intros H3. apply map_eq. intros k. rewrite ensureStringData_lookup.
    case_decide as Hk; [by subst k |].
    rewrite !lookup_insert. repeat case_decide; simpl; try done.
    by rewrite H3.
  - intros u data android outcome st Hne.
    rewrite sendToUser_with_tokens by done. eauto.
  - intros t data android outcome st. unfold sendToToken.
    destruct outcome; eauto.
Qed.

(** C9.  When [send] resolves to a message id, the dispatch to a token
    answers 200 with that very id; when [send] throws, it answers 500 with
    the error; in both cases the store is the one it started with, and so
    for the route on a body that passes its check.  A provider that
    returns ["msg-42"] gives the caller ["msg-42"]. *)
Theorem sendToToken_spec (t : string) (data : gmap string JsonValue)
    (android : option JsonValue) (st : Store) :
  (∀ id, response (sendToToken t data android (inr id) st)
         = mkResponse 200 (JsonMessageId id)) ∧
  json (response (sendToToken t data android (inr "msg-42") st))
  = JsonMessageId "msg-42" ∧
  (∀ e, response (sendToToken t data android (inl e) st)
        = mkResponse 500 (JsonError e)) ∧
  (∀ outcome, store (sendToToken t data android outcome st) = st) ∧
  (∀ body outcome, body_token body = Some t → truthy t = true →
     body_data body = Some data → body_android body = android →
     post_notifications_sendToToken body outcome st
     = sendToToken t data android outcome st).
Proof.
  split_and!; try done.
  - by intros [e | id].
  - intros body outcome Ht Htruthy Hdata <-.
    by apply post_notifications_sendToToken_valid.
Qed.

(** C10.  When [sendEachForMulticast] throws, the dispatch to a user
    leaves the store as it was; for a user with tokens it answers 500 with
    the error, having made the one call.  The route on a body that passes
    its check does the same. *)
Theorem sendToUser_provider_error (u : string) (data : gmap string JsonValue)
    (android : option JsonValue) (e : Exn) (st : Store) :
  store (sendToUser u data android (inl e) st) = st ∧
  (tokensOf u st ≠ [] →
   sendToUser u data android (inl e) st
   = mkReply (mkResponse 500 (JsonError e)) st
       [CallSendEachForMulticast
          (mkMulticast (tokensOf u st) (ensureStringData (Some data))
             (or_json android high_priority))]) ∧
  (∀ body, body_userId body = Some u → truthy u = true →
     body_data body = Some data → body_android body = android →
     store (post_notifications_send body (inl e) st) = st).
Proof.
  assert (Hstore : store (sendToUser u data android (inl e) st) = st).
  { by destruct (sendToUser_store u data android (inl e) st) as [-> | ->]. }
  split_and!; [done | |].
  - intros Hne. by rewrite sendToUser_with_tokens.
  - intros body Hu Htruthy Hdata <-.
    by rewrite (post_notifications_send_valid body u data).
Qed.

Lemma cleanupResponse_success tokens st idx r :
  success r = true → cleanupResponse tokens st idx r = st.
Proof. intros Hr. unfold cleanupResponse. by rewrite Hr. Qed.

Lemma cleanupResponse_invalid tokens st idx r t :
  success r = false → invalidTokenCode (errorCode r) = true →
  tokens !! idx = Some t →
  cleanupResponse tokens st idx r
  = match metaByToken st !! t with
    | Some meta =>
        if truthy (userId meta) then removeToken (userId meta) t st else st
    | None => st
    end.
Proof.
  intros Hr Hcode Ht. unfold cleanupResponse. by rewrite Hr, Hcode, Ht.
Qed.

(** C3, as amended.  In a store reached by a history of requests, let the
    user's set be [t1, t2] and let the provider answer with a failure of a
    not-registered or invalid-argument code for [t1], a success for [t2],
    and counters that agree with these two entries.  The dispatch makes
    its one call and answers 200 with [failureCount] 1.  [t2] stays in the
    user's set with the metadata it had.  When [t1] has metadata, that
    metadata is deleted and [t1] leaves the set of the user the metadata
    names; when this is the user of the dispatch, the set is left as
    [t2] alone.  When [t1] has no metadata, the store is left as it was. *)
Theorem sendToUser_cleanup (evs : list Event) (u t1 t2 : string)
    (data : gmap string JsonValue) (android : option JsonValue)
    (resp : BatchResponse) (r1 r2 : SendResponse) :
  let st := run evs empty_store in
  let rep := sendToUser u data android (inr resp) st in
  tokensOf u st = [t1; t2] →
  responses resp = [r1; r2] →
  success r1 = false → invalidTokenCode (errorCode r1) = true →
  success r2 = true →
  counts_agree resp →
  response rep = mkResponse 200 (JsonCounts 1 1) ∧
  calls rep
  = [CallSendEachForMulticast
       (mkMulticast [t1; t2] (ensureStringData (Some data))
          (or_json android high_priority))] ∧
  t2 ∈ tokensOf u (store rep) ∧
  metadataOf t2 (store rep) = metadataOf t2 st ∧
  match metadataOf t1 st with
  | Some m =>
      metadataOf t1 (store rep) = None ∧
      (t1 ∉ tokensOf (userId m) (store rep)) ∧
      (userId m = u → tokensOf u (store rep) = [t2])
  | None => store rep = st
  end.
Proof.
  intros st rep Htokens Hresp Hr1 Hcode Hr2 [Hsucc Hfail].
  assert (Hwf : store_wf st) by apply run_wf, store_wf_empty.
  destruct Hwf as [Hsets Hmeta].
  assert (Hne : t1 ≠ t2).
  { unfold tokensOf in Htokens.
    destruct (tokensByUser st !! u) as [l |] eqn:Hl; [| done].
    simpl in Htokens. subst l. destruct (Hsets u _ Hl) as (_ & _ & Hnd).
    apply NoDup_cons in Hnd as [Hnotin _]. intros ->. apply Hnotin. by left. }
  rewrite Hresp in Hsucc, Hfail.
  rewrite filter_cons_False, filter_cons_True in Hsucc by congruence.
  rewrite filter_cons_True, filter_cons_False in Hfail by congruence.
  simpl in Hsucc, Hfail.
  assert (Hstore : store rep
    = match metaByToken st !! t1 with
      | Some meta => removeToken (userId meta) t1 st
      | None => st
      end).
  { unfold rep. rewrite sendToUser_with_tokens by (by rewrite Htokens).
    rewrite Htokens. simpl. unfold cleanupInvalidTokens. rewrite Hresp. simpl.
    rewrite (cleanupResponse_success _ _ 1 r2) by done.
    rewrite (cleanupResponse_invalid _ _ 0 r1 t1) by done.
    destruct (metaByToken st !! t1) as [m |] eqn:Hm; [| done].
    by destruct (Hmeta t1 m Hm) as [-> _]. }
  split_and!.
  - unfold rep. rewrite sendToUser_with_tokens by (by rewrite Htokens).
    simpl. by rewrite Hsucc, Hfail.
  - unfold rep. rewrite sendToUser_with_tokens by (by rewrite Htokens).
    by rewrite Htokens.
  - rewrite Hstore. destruct (metaByToken st !! t1) as [m |] eqn:Hm.
    + destruct (Hmeta t1 m Hm) as [Hu _].
      rewrite tokensOf_removeToken by done. case_decide as Hd.
      * apply elem_of_Set_delete. rewrite Hd, Htokens.
        split; [done | set_solver].
      * rewrite Htokens. set_solver.
    + rewrite Htokens. set_solver.
  - rewrite Hstore. unfold metadataOf.
    destruct (metaByToken st !! t1) as [m |]; [| done].
    by rewrite removeToken_meta, lookup_delete_ne.
  - unfold metadataOf at 1. destruct (metaByToken st !! t1) as [m |] eqn:Hm.
    + rewrite Hstore. destruct (Hmeta t1 m Hm) as [Hu _]. split_and!.
      * unfold metadataOf. by rewrite removeToken_meta, lookup_delete_eq.
      * rewrite tokensOf_removeToken, decide_True by done.
        rewrite elem_of_Set_delete. by intros [? _].
      * intros Hown. rewrite tokensOf_removeToken, decide_True by done.
        rewrite Hown, Htokens. unfold Set_delete.
        rewrite filter_cons_False by (intros H; by apply H).
        by rewrite filter_cons_True.
    + done.
Qed.

(** * Further properties of the helpers and routes *)

(** ** The two helpers as operations on the store *)

Lemma store_eq (a b : Store) :
  tokensByUser a = tokensByUser b → metaByToken a = metaByToken b → a = b.
Proof. destruct a, b. simpl. by intros -> ->. Qed.

Lemma Set_delete_idemp (t : string) (l : list string) :
  Set_delete t (Set_delete t l) = Set_delete t l.
Proof.
  apply Set_delete_absent. rewrite elem_of_Set_delete. by intros [? _].
Qed.

Lemma Set_delete_add_ne (t t' : string) (l : list string) :
  t ≠ t' → Set_delete t (Set_add t' l) = Set_add t' (Set_delete t l).
Proof.
  intros Hne. unfold Set_add.
  destruct (decide (t' ∈ l)) as [Hin | Hnotin].
  - rewrite decide_True; [done |]. apply elem_of_Set_delete. by split.
  - rewrite decide_False by (rewrite elem_of_Set_delete; by intros [_ ?]).
    unfold Set_delete. rewrite filter_app. f_equal.
    by rewrite filter_cons_True by done.
Qed.

(** X1.  [removeToken] twice is [removeToken] once, in every store and
    for every userId and token. *)
Theorem removeToken_idempotent (u t : string) (st : Store) :
  removeToken u t (removeToken u t st) = removeToken u t st.
Proof.
  apply store_eq; [| by rewrite !removeToken_meta, delete_delete_eq].
  destruct (truthy u) eqn:Hu; [| by rewrite !removeToken_falsy].
  apply map_eq. intros k. destruct (decide (u = k)) as [<- | Hne].
  - rewrite removeToken_sets_eq by done.
    rewrite (removeToken_sets_eq u t st) by done.
    destruct (tokensByUser st !! u) as [l |]; [| done].
    case_decide as Hd; [done |].
    rewrite Set_delete_idemp. by rewrite decide_False.
  - by rewrite removeToken_sets_ne.
Qed.

(** X2.  [removeToken] of one token and [upsertToken] of another can be
    done in either order, whatever the two userIds are: the store they
    leave is the same. *)
Theorem removeToken_upsertToken_commute (now u t u' t' : string)
    (p : option string) (st : Store) :
  t ≠ t' →
  removeToken u t (upsertToken now u' t' p st)
  = upsertToken now u' t' p (removeToken u t st).
Proof.
  intros Hne. apply store_eq.
  - destruct (truthy u) eqn:Hu.
    + apply map_eq. intros k.
      destruct (decide (u = k)) as [<- | Hk].
      * rewrite removeToken_sets_eq by done.
        destruct (decide (u' = u)) as [-> | Hu'].
        -- rewrite !upsertToken_sets_eq, tokensOf_removeToken by done.
           rewrite (decide_True (P := u = u)) by done.
           rewrite Set_delete_add_ne by done.
           rewrite decide_False; [done |]. apply Set_add_nonempty.
        -- rewrite !upsertToken_sets_ne by done.
           by rewrite removeToken_sets_eq.
      * rewrite removeToken_sets_ne by done.
        destruct (decide (u' = k)) as [<- | Hk'].
        -- rewrite !upsertToken_sets_eq, tokensOf_removeToken by done.
           by rewrite (decide_False (P := u = u')).
        -- rewrite !upsertToken_sets_ne by done.
           by rewrite removeToken_sets_ne.
    + rewrite removeToken_falsy by done.
      apply map_eq. intros k. destruct (decide (u' = k)) as [<- | Hk'].
      * rewrite !upsertToken_sets_eq. unfold tokensOf.
        by rewrite removeToken_falsy.
      * rewrite !upsertToken_sets_ne by done. by rewrite removeToken_falsy.
  - rewrite removeToken_meta, !upsertToken_meta, removeToken_meta.
    by rewrite delete_insert_ne.
Qed.


(** ** The cleanup after a multicast *)

Lemma cleanupResponse_cases tokens st idx r :
  cleanupResponse tokens st idx r
  = if marksInvalid r then
      match tokens !! idx with
      | Some t =>
          match metaByToken st !! t with
          | Some meta =>
              if truthy (userId meta) then removeToken (userId meta) t st
              else st
          | None => st
          end
      | None => st
      end
    else st.
Proof.
  unfold cleanupResponse, marksInvalid.
  destruct (success r); simpl; [done |].
  by destruct (invalidTokenCode (errorCode r)).
Qed.

Lemma shrinks_refl st : shrinks st st.
Proof. by split. Qed.

Lemma shrinks_trans st1 st2 st3 :
  shrinks st1 st2 → shrinks st2 st3 → shrinks st1 st3.
Proof.
  intros [Hs12 Hm12] [Hs23 Hm23]. split.
  - intros u t Hin. by apply Hs12, Hs23.
  - intros t m Hm. by apply Hm12, Hm23.
Qed.

Lemma removeToken_shrinks u t st : shrinks st (removeToken u t st).
Proof.
  split.
  - intros u' t'. destruct (truthy u) eqn:Hu.
    + rewrite tokensOf_removeToken by done. case_decide as Hd; [| done].
      subst u'. rewrite elem_of_Set_delete. by intros [_ ?].
    + unfold tokensOf. by rewrite removeToken_falsy.
  - intros t' m. unfold metadataOf. rewrite removeToken_meta.
    rewrite lookup_delete_Some. by intros [_ ?].
Qed.

Lemma cleanupResponse_shrinks tokens st idx r :
  shrinks st (cleanupResponse tokens st idx r).
Proof.
  rewrite cleanupResponse_cases.
  repeat (case_match; try apply shrinks_refl). apply removeToken_shrinks.
Qed.

Lemma forEachFrom_shrinks tokens rs idx st :
  shrinks st (forEachFrom tokens idx rs st).
Proof.
  apply (forEachFrom_preserves (shrinks st)); [| apply shrinks_refl].
  intros st' idx' r Hst'. eapply shrinks_trans; [done |].
  apply cleanupResponse_shrinks.
Qed.

(** X3.  Neither dispatch route ever adds to the store: after a dispatch
    to a user, however the provider answers, every token in a set was in
    that set before and every metadata entry was there before, unchanged;
    a dispatch to a token leaves the store as it is. *)
Theorem dispatch_only_removes (u : string) (data : gmap string JsonValue)
    (android : option JsonValue) (st : Store) :
  (∀ outcome,
     let st' := store (sendToUser u data android outcome st) in
     (∀ u' t, t ∈ tokensOf u' st' → t ∈ tokensOf u' st) ∧
     (∀ t m, metadataOf t st' = Some m → metadataOf t st = Some m)) ∧
  (∀ body outcome,
     let st' := store (post_notifications_send body outcome st) in
     (∀ u' t, t ∈ tokensOf u' st' → t ∈ tokensOf u' st) ∧
     (∀ t m, metadataOf t st' = Some m → metadataOf t st = Some m)) ∧
  (∀ body outcome,
     store (post_notifications_sendToToken body outcome st) = st).
Proof.
  assert (Hcore : ∀ u data android outcome,
    shrinks st (store (sendToUser u data android outcome st))).
  { intros u0 d a outcome.
    destruct (sendToUser_store u0 d a outcome st) as [-> | ->];
      [apply shrinks_refl |].
    destruct outcome as [e | resp]; simpl; [apply shrinks_refl |].
    apply forEachFrom_shrinks. }
  split_and!.
  - intros outcome. apply Hcore.
  - intros body outcome. unfold post_notifications_send.
    destruct (body_userId body) as [u0 |], (body_data body) as [d |];
      try apply shrinks_refl.
    destruct (truthy u0); [apply Hcore | apply shrinks_refl].
  - intros body outcome. unfold post_notifications_sendToToken.
    destruct (body_token body) as [t |], (body_data body) as [d |]; try done.
    destruct (truthy t); [| done]. by destruct outcome.
Qed.

Lemma forEachFrom_unmarked tokens rs : ∀ idx st,
  (∀ r, r ∈ rs → marksInvalid r = false) →
  forEachFrom tokens idx rs st = st.
Proof.
  induction rs as [| r rs IH]; intros idx st Hall; simpl; [done |].
  rewrite cleanupResponse_cases, (Hall r) by (by left).
  apply IH. intros r' Hr'. apply Hall. by right.
Qed.

(** X4.  When no response of the provider is a failure with a
    not-registered or invalid-argument code (every token delivered, or
    failed for another reason, or failed without a code), the dispatch to
    a user leaves the store exactly as it was. *)
Theorem sendToUser_other_failures_keep_tokens (u : string)
    (data : gmap string JsonValue) (android : option JsonValue)
    (resp : BatchResponse) (st : Store) :
  (∀ r, r ∈ responses resp → marksInvalid r = false) →
  store (sendToUser u data android (inr resp) st) = st.
Proof.
  intros Hall.
  destruct (sendToUser_store u data android (inr resp) st) as [-> | ->];
    [done |].
  simpl. unfold cleanupInvalidTokens. by apply forEachFrom_unmarked.
Qed.

Lemma forEachFrom_beyond (tokens : list string) rs : ∀ idx st,
  (List.length tokens ≤ idx)%nat → forEachFrom tokens idx rs st = st.
Proof.
  induction rs as [| r rs IH]; intros idx st Hlen; simpl; [done |].
  rewrite cleanupResponse_cases, (lookup_ge_None_2 tokens idx) by done.
  rewrite IH by lia. by destruct (marksInvalid r).
Qed.

Lemma forEachFrom_take (tokens : list string) rs : ∀ idx st,
  forEachFrom tokens idx rs st
  = forEachFrom tokens idx (take (List.length tokens - idx) rs) st.
Proof.
  induction rs as [| r rs IH]; intros idx st; [by rewrite take_nil |].
  destruct (List.length tokens - idx) as [| n] eqn:Hn.
  - simpl take. rewrite forEachFrom_beyond by lia. done.
  - simpl. rewrite IH. by replace (List.length tokens - S idx) with n by lia.
Qed.

(** X5.  Responses past the end of the token array are ignored: the
    cleanup does what it does with the first as many responses as there
    are tokens, and so does the dispatch to a user. *)
Theorem cleanup_ignores_surplus_responses (tokens : list string)
    (rs : list SendResponse) (st : Store) :
  cleanupInvalidTokens tokens rs st
  = cleanupInvalidTokens tokens (take (List.length tokens) rs) st ∧
  (∀ u data android succ fail,
     store (sendToUser u data android (inr (mkBatch rs succ fail)) st)
     = store (sendToUser u data android
                (inr (mkBatch (take (List.length (tokensOf u st)) rs) succ fail))
                st)).
Proof.
  assert (Htake : ∀ toks, cleanupInvalidTokens toks rs st
    = cleanupInvalidTokens toks (take (List.length toks) rs) st).
  { intros toks. unfold cleanupInvalidTokens.
    rewrite (forEachFrom_take toks rs 0 st). by rewrite Nat.sub_0_r. }
  split; [apply Htake |]. intros u data android succ fail.
  destruct (decide (tokensOf u st = [])) as [Hnone | Hsome].
  - unfold sendToUser, tokensOf in *.
    destruct (tokensByUser st !! u) as [l |]; [| done].
    simpl in Hnone. by subst l.
  - rewrite !sendToUser_with_tokens by done. simpl. apply Htake.
Qed.


Lemma marked_cons (tokens : list string) idx r rs t :
  marked tokens idx (r :: rs) t ↔
  (marksInvalid r = true ∧ tokens !! idx = Some t) ∨ marked tokens (S idx) rs t.
Proof.
  unfold marked. split.
  - intros (j & r' & Hj & Ht & Hm). destruct j as [| j]; simpl in Hj.
    + injection Hj as <-. rewrite Nat.add_0_r in Ht. by left.
    + right. exists j, r'. by rewrite Nat.add_succ_r in Ht.
  - intros [[Hm Ht] | (j & r' & Hj & Ht & Hm)].
    + exists 0, r. by rewrite Nat.add_0_r.
    + exists (S j), r'. by rewrite Nat.add_succ_r.
Qed.

Lemma sendToUser_store_resolved u data android resp st :
  store (sendToUser u data android (inr resp) st)
  = cleanupInvalidTokens (tokensOf u st) (responses resp) st.
Proof.
  destruct (decide (tokensOf u st = [])) as [Hnone | Hsome].
  - rewrite Hnone. unfold cleanupInvalidTokens.
    rewrite forEachFrom_beyond by (simpl; lia).
    unfold sendToUser, tokensOf in *.
    destruct (tokensByUser st !! u) as [l |]; [| done].
    simpl in Hnone. by subst l.
  - by rewrite sendToUser_with_tokens.
Qed.

Lemma cleanupResponse_meta tokens st idx r t :
  store_wf st →
  metadataOf t (cleanupResponse tokens st idx r)
  = if decide (marksInvalid r = true ∧ tokens !! idx = Some t)
    then None else metadataOf t st.
Proof.
  intros [_ Hmeta]. rewrite cleanupResponse_cases.
  destruct (marksInvalid r); [| by rewrite decide_False by (by intros [? _])].
  destruct (tokens !! idx) as [t0 |];
    [| by rewrite decide_False by (by intros [_ ?])].
  unfold metadataOf.
  destruct (metaByToken st !! t0) as [m |] eqn:Hm.
  - destruct (Hmeta t0 m Hm) as [-> _].
    rewrite removeToken_meta, lookup_delete.
    destruct (decide (t0 = t)) as [-> | Hne].
    + by rewrite decide_True.
    + rewrite decide_False; [done |]. intros [_ [=]]. done.
  - case_decide as Hd; [| done]. destruct Hd as [_ [= ->]]. done.
Qed.

Lemma forEachFrom_meta tokens rs t : ∀ idx st,
  store_wf st →
  (marked tokens idx rs t → metadataOf t (forEachFrom tokens idx rs st) = None) ∧
  (¬ marked tokens idx rs t →
   metadataOf t (forEachFrom tokens idx rs st) = metadataOf t st).
Proof.
  induction rs as [| r rs IH]; intros idx st Hwf.
  - split; [| done]. intros (j & r & Hj & _). by rewrite lookup_nil in Hj.
  - simpl. pose proof (cleanupResponse_wf tokens st idx r Hwf) as Hwf1.
    destruct (IH (S idx) _ Hwf1) as [IHyes IHno].
    pose proof (cleanupResponse_meta tokens st idx r t Hwf) as Hstep.
    rewrite marked_cons. split.
    + intros [Hhead | Htail]; [| by apply IHyes].
      rewrite decide_True in Hstep by done.
      destruct (metadataOf t (forEachFrom _ _ _ _)) as [m |] eqn:Hm; [| done].
      apply (forEachFrom_shrinks tokens rs (S idx)) in Hm. congruence.
    + intros Hnot. rewrite IHno by tauto.
      rewrite Hstep. rewrite decide_False; [done | tauto].
Qed.

(** X6.  After every history of requests, a dispatch the provider
    answers deletes the metadata of exactly the tokens it marks: a token
    at a position of the user's token array whose response is a failure
    with a not-registered or invalid-argument code has no metadata
    afterwards, and every other token has the metadata it had. *)
Theorem cleanup_deletes_marked_metadata (evs : list Event) (u : string)
    (data : gmap string JsonValue) (android : option JsonValue)
    (resp : BatchResponse) (t : string) :
  let st := run evs empty_store in
  let rep := sendToUser u data android (inr resp) st in
  (marked (tokensOf u st) 0 (responses resp) t →
   metadataOf t (store rep) = None) ∧
  (¬ marked (tokensOf u st) 0 (responses resp) t →
   metadataOf t (store rep) = metadataOf t st).
Proof.
  intros st rep. unfold rep. rewrite sendToUser_store_resolved.
  apply forEachFrom_meta, run_wf, store_wf_empty.
Qed.

Lemma cleanupResponse_members own tokens st idx r u t :
  owned_wf own st →
  t ∈ tokensOf u (cleanupResponse tokens st idx r) ↔
  t ∈ tokensOf u st ∧ ¬ (marksInvalid r = true ∧ tokens !! idx = Some t).
Proof.
  intros ([_ Hmeta] & Hfollow & Hmem). rewrite cleanupResponse_cases.
  destruct (marksInvalid r); [| split; [by intros ?; split; [| intros [? _]] | by intros [? _]]].
  destruct (tokens !! idx) as [t0 |];
    [| split; [by intros ?; split; [| intros [_ ?]] | by intros [? _]]].
  destruct (metaByToken st !! t0) as [m |] eqn:Hm.
  - destruct (Hmeta t0 m Hm) as [Hu Hin0]. rewrite Hu.
    rewrite tokensOf_removeToken by done. case_decide as Hd.
    + subst u. rewrite elem_of_Set_delete. split.
      * intros [Hne Hin]. split; [done |]. intros [_ [= ->]]. done.
      * intros [Hin Hnot]. split; [| done]. intros ->. by apply Hnot.
    + split; [| by intros [? _]]. intros Hin. split; [done |].
      intros [_ [= ->]]. apply Hd.
      rewrite <- (Hfollow _ _ Hin0). by apply Hfollow.
  - split; [| by intros [? _]]. intros Hin. split; [done |].
    intros [_ [= ->]]. destruct (Hmem u t Hin) as (m & Hm' & _). congruence.
Qed.

Lemma forEachFrom_members own tokens rs u t : ∀ idx st,
  owned_wf own st →
  t ∈ tokensOf u (forEachFrom tokens idx rs st) ↔
  t ∈ tokensOf u st ∧ ¬ marked tokens idx rs t.
Proof.
  induction rs as [| r rs IH]; intros idx st Hown.
  - simpl. split; [| by intros [? _]]. intros Hin. split; [done |].
    intros (j & r & Hj & _). by rewrite lookup_nil in Hj.
  - simpl. rewrite IH by (by apply cleanupResponse_owned).
    rewrite (cleanupResponse_members own) by done.
    rewrite marked_cons. tauto.
Qed.

(** X7.  After a history in which each token is only ever named with one
    userId, a dispatch the provider answers removes from the sets exactly
    the tokens it marks: a token is in a user's set afterwards if and only
    if it was there before and no response at its position in the token
    array is a failure with a not-registered or invalid-argument code. *)
Theorem cleanup_removes_exactly_marked (own : string → string)
    (evs : list Event) (u : string) (data : gmap string JsonValue)
    (android : option JsonValue) (resp : BatchResponse) (u' t : string) :
  single_owner own evs →
  let st := run evs empty_store in
  let rep := sendToUser u data android (inr resp) st in
  t ∈ tokensOf u' (store rep) ↔
  t ∈ tokensOf u' st ∧ ¬ marked (tokensOf u st) 0 (responses resp) t.
Proof.
  intros Hsingle st rep. unfold rep. rewrite sendToUser_store_resolved.
  apply (forEachFrom_members own).
  by apply run_owned; [| apply owned_wf_empty].
Qed.


(** ** The checks of the routes *)

Lemma truthy_false (s : string) : truthy s = false ↔ s = EmptyString.
Proof.
  unfold truthy. rewrite negb_false_iff.
  destruct (String.eqb_spec s EmptyString); split; congruence.
Qed.

Lemma missing_Some (s : string) : missing (Some s) ↔ truthy s = false.
Proof.
  rewrite truthy_false. unfold missing. split.
  - intros [[=] | [= ->]]. done.
  - intros ->. by right.
Qed.

Lemma missing_None : missing None.
Proof. by left. Qed.

(** X8.  The three device routes call the helpers only for a body whose
    userId and token are both present and not empty: any other body is
    answered 400 with the store left alone, a body with both is answered
    200, and none of the three ever calls the provider. *)
Theorem device_routes_check_fields (now : string) (body : Body) (st : Store) :
  let reg := post_devices_register now body st in
  let upd := put_devices_token now body st in
  let unreg := delete_devices_unregister body st in
  (missing (body_userId body) ∨ missing (body_token body) →
   rejected reg st ∧ rejected upd st ∧ rejected unreg st) ∧
  (¬ (missing (body_userId body) ∨ missing (body_token body)) →
   response reg = mkResponse 200 JsonOk ∧
   response upd = mkResponse 200 JsonOk ∧
   response unreg = mkResponse 200 JsonOk) ∧
  calls reg = [] ∧ calls upd = [] ∧ calls unreg = [].
Proof.
  unfold post_devices_register, put_devices_token, delete_devices_unregister.
  destruct (body_userId body) as [u |], (body_token body) as [t |];
    try (split_and!; [by intros _; repeat split
                     | intros Hno; destruct Hno; auto using missing_None
                     | done ..]).
  rewrite !missing_Some.
  destruct (truthy u), (truthy t); simpl;
    (split_and!; [| | done ..]);
    try (by intros _; repeat split); try (by intros [? | ?]);
    try (intros Hno; destruct Hno; by auto).
Qed.

(** X9.  The two dispatch routes: a body without a non-empty userId (for
    the token route: token) or without data is answered 400, with the
    store left alone and no call of the provider; the route to a user
    calls the provider exactly when it answers neither 400 nor 404, and
    then once; the route to a token, for a body that passes, calls [send]
    once with the token of the body, whether the store knows it or not. *)
Theorem dispatch_routes_check_fields (body : Body) (st : Store) :
  (∀ outcome, missing (body_userId body) ∨ body_data body = None →
     rejected (post_notifications_send body outcome st) st) ∧
  (∀ outcome, missing (body_token body) ∨ body_data body = None →
     rejected (post_notifications_sendToToken body outcome st) st) ∧
  (∀ outcome,
     let rep := post_notifications_send body outcome st in
     (status (response rep) = 400 ∨ status (response rep) = 404 →
      calls rep = []) ∧
     (status (response rep) ≠ 400 → status (response rep) ≠ 404 →
      ∃ m, calls rep = [CallSendEachForMulticast m])) ∧
  (∀ outcome t, body_token body = Some t → truthy t = true →
     is_Some (body_data body) →
     ∃ m, calls (post_notifications_sendToToken body outcome st) = [CallSend m] ∧
          msg_token m = t).
Proof.
  split_and!.
  - intros outcome Hmiss. unfold post_notifications_send.
    destruct (body_userId body) as [u |], (body_data body) as [d |];
      try by repeat split.
    destruct Hmiss as [Hmiss | [=]]. apply missing_Some in Hmiss.
    rewrite Hmiss. by repeat split.
  - intros outcome Hmiss. unfold post_notifications_sendToToken.
    destruct (body_token body) as [t |], (body_data body) as [d |];
      try by repeat split.
    destruct Hmiss as [Hmiss | [=]]. apply missing_Some in Hmiss.
    rewrite Hmiss. by repeat split.
  - intros outcome rep. unfold rep, post_notifications_send.
    destruct (body_userId body) as [u |], (body_data body) as [d |];
      try (split; [done | by intros []]).
    destruct (truthy u); simpl; [| split; [done | by intros []]].
    unfold sendToUser.
    destruct (tokensByUser st !! u) as [l |];
      [| split; [done | by intros _ []]].
    case_bool_decide; [split; [done | by intros _ []] |].
    destruct outcome as [e | resp]; simpl.
    + split; [by intros [[=] | [=]] | eauto].
    + split; [by intros [[=] | [=]] | eauto].
  - intros outcome t Ht Htruthy [d Hd].
    unfold post_notifications_sendToToken, sendToToken.
    rewrite Ht, Hd, Htruthy. simpl. destruct outcome; eauto.
Qed.

(** ** Token refresh *)

Lemma or_string_idemp (o : option string) (dflt : string) :
  or_string (Some (or_string o dflt)) dflt = or_string o dflt.
Proof.
  unfold or_string. destruct o as [s |].
  - destruct (truthy s) eqn:Hs; [by rewrite Hs | by destruct (truthy dflt)].
  - by destruct (truthy dflt).
Qed.

(** X10.  [PUT /devices/token] for a body with a userId, a token and an
    old token that is another one: the user's set is what it was with the
    old token taken out and the new one added; the old token has no
    metadata anymore, the new one has metadata that names the user, the
    platform of the body (android when it gives none) and the clock
    reading. *)
Theorem put_devices_token_replaces (now : string) (body : Body)
    (u t old : string) (st : Store) :
  body_userId body = Some u → body_token body = Some t →
  body_oldToken body = Some old →
  truthy u = true → truthy t = true → truthy old = true → old ≠ t →
  let st' := store (put_devices_token now body st) in
  tokensOf u st' = Set_add t (Set_delete old (tokensOf u st)) ∧
  (old ∉ tokensOf u st') ∧ t ∈ tokensOf u st' ∧
  metadataOf old st' = None ∧
  metadataOf t st'
  = Some (mkMeta u (or_string (body_platform body) "android") now).
Proof.
  intros Hu Ht Hold Htu Htt Htold Hne st'.
  assert (Hst' : st' = upsertToken now u t
    (Some (or_string (body_platform body) "android")) (removeToken u old st)).
  { unfold st', put_devices_token. rewrite Hu, Ht, Hold, Htu, Htt, Htold.
    simpl. destruct (String.eqb_spec old t); done. }
  assert (Hset : tokensOf u st' = Set_add t (Set_delete old (tokensOf u st))).
  { rewrite Hst', tokensOf_upsertToken, decide_True by done.
    by rewrite tokensOf_removeToken, decide_True. }
  split_and!.
  - done.
  - rewrite Hset, elem_of_Set_add, elem_of_Set_delete. intros [? | [? _]]; done.
  - rewrite Hset. apply elem_of_Set_add. by left.
  - rewrite Hst'. unfold metadataOf.
    rewrite upsertToken_meta, lookup_insert_ne by done.
    by rewrite removeToken_meta, lookup_delete_eq.
  - rewrite Hst'. unfold metadataOf. rewrite upsertToken_meta, lookup_insert_eq.
    by rewrite or_string_idemp.
Qed.

(** X11.  [PUT /devices/token] for a body without an old token, with an
    empty one, or with the old token being the new token, answers and
    leaves the store exactly as [POST /devices/register] does for the same
    body at the same time. *)
Theorem put_devices_token_as_register (now : string) (body : Body)
    (st : Store) :
  missing (body_oldToken body) ∨ body_oldToken body = body_token body →
  put_devices_token now body st = post_devices_register now body st.
Proof.
  intros Hold. unfold put_devices_token, post_devices_register.
  destruct (body_userId body) as [u |], (body_token body) as [t |]; try done.
  destruct (negb (truthy u) || negb (truthy t)); [done |].
  destruct (body_oldToken body) as [old |]; [| done].
  destruct Hold as [Hmiss | [= ->]].
  - apply missing_Some in Hmiss. by rewrite Hmiss.
  - by rewrite String.eqb_refl, andb_false_r.
Qed.


(** ** What the store never holds *)

Lemma named_truthy ev u t : (u, t) ∈ named ev → truthy t = true.
Proof.
  destruct ev as [now b | now b | b | b o | tokens o | b o]; simpl;
    try (by intros ?%elem_of_nil);
    destruct (body_userId b) as [u0 |], (body_token b) as [t0 |];
    try (by intros ?%elem_of_nil);
    destruct (truthy u0), (truthy t0) eqn:Ht0; simpl;
    try (by intros ?%elem_of_nil);
    try (by intros [= _ ->]%list_elem_of_singleton).
  destruct (body_oldToken b) as [old |];
    [| by intros [= _ ->]%list_elem_of_singleton].
  destruct (truthy old) eqn:Hold;
    [| by intros [= _ ->]%list_elem_of_singleton].
  intros [[= _ ->] | [= _ ->]%list_elem_of_singleton]%elem_of_cons; done.
Qed.

Lemma or_string_truthy (o : option string) (dflt : string) :
  truthy dflt = true → truthy (or_string o dflt) = true.
Proof.
  intros Hd. unfold or_string. destruct o as [s |]; [| done].
  by destruct (truthy s) eqn:Hs.
Qed.

Lemma tokens_truthy_empty : tokens_truthy empty_store.
Proof.
  split.
  - intros u t Hin. unfold tokensOf in Hin. cbn in Hin.
    rewrite lookup_empty in Hin. by apply elem_of_nil in Hin.
  - intros t m Hm. unfold metadataOf in Hm. cbn in Hm.
    by rewrite lookup_empty in Hm.
Qed.

Lemma tokens_truthy_shrinks st st' :
  shrinks st st' → tokens_truthy st → tokens_truthy st'.
Proof.
  intros [Hs Hm] [Hsets Hmeta]. split.
  - intros u t Hin. by apply (Hsets u), Hs.
  - intros t m Hmt. by apply Hmeta, Hm.
Qed.

Lemma upsertToken_tokens_truthy now u t p st :
  truthy t = true →
  tokens_truthy st → tokens_truthy (upsertToken now u t p st).
Proof.
  intros Ht [Hsets Hmeta]. split.
  - intros u' t'. rewrite tokensOf_upsertToken. case_decide as Hd.
    + rewrite elem_of_Set_add. intros [-> | Hin]; [done |]. by apply (Hsets u).
    + apply Hsets.
  - intros t' m. unfold metadataOf. rewrite upsertToken_meta, lookup_insert.
    case_decide as Hd.
    + intros [= <-]. subst t'. split; [done |]. simpl.
      by apply or_string_truthy.
    + apply Hmeta.
Qed.

Lemma run_tokens_truthy evs : ∀ st,
  tokens_truthy st → tokens_truthy (run evs st).
Proof.
  induction evs as [| ev evs IH]; intros st Hst; simpl; [done |].
  apply IH. apply handle_preserves; [| | | done].
  - intros now u t p st' _ Hin. apply upsertToken_tokens_truthy.
    by apply (named_truthy ev u).
  - intros u t st' _ _. apply tokens_truthy_shrinks, removeToken_shrinks.
  - intros tokens st' idx r.
    apply tokens_truthy_shrinks, cleanupResponse_shrinks.
Qed.

(** X12.  After every history of requests the store holds no empty
    string where an identifier belongs: no key of [tokensByUser] and no
    token in a set is empty, and every metadata entry is for a non-empty
    token and names a non-empty userId and a non-empty platform. *)
Theorem stored_strings_nonempty (evs : list Event) :
  let st := run evs empty_store in
  (∀ u, is_Some (tokensByUser st !! u) → u ≠ EmptyString) ∧
  (∀ u t, t ∈ tokensOf u st → t ≠ EmptyString) ∧
  (∀ t m, metadataOf t st = Some m →
     t ≠ EmptyString ∧ userId m ≠ EmptyString ∧ platform m ≠ EmptyString).
Proof.
  intros st.
  assert (Hwf : store_wf st) by apply run_wf, store_wf_empty.
  assert (Htr : tokens_truthy st) by apply run_tokens_truthy, tokens_truthy_empty.
  destruct Hwf as [Hsets Hmeta]. destruct Htr as [Htok Hplat].
  split_and!.
  - intros u [l Hl]. apply truthy_true. by destruct (Hsets u l Hl).
  - intros u t Hin. apply truthy_true. by apply (Htok u).
  - intros t m Hm. destruct (Hplat t m Hm) as [Ht Hp].
    destruct (Hmeta t m Hm) as [Hu _]. by rewrite <- !truthy_true.
Qed.

(** ** The payload *)

(** X13.  [ensureStringData] gives the payload's own keys other than
    [__proto__], no more and no fewer; a payload whose values are all
    strings and that has no key [__proto__] comes back as it is; and
    normalising a normalised payload changes nothing. *)
Theorem ensureStringData_strings_fixed :
  (∀ data, dom (ensureStringData (Some data)) = dom data ∖ {["__proto__"]}) ∧
  (∀ m : gmap string string, m !! "__proto__" = None →
     ensureStringData (Some (JString <$> m)) = m) ∧
  (∀ data,
     ensureStringData (Some (JString <$> ensureStringData (Some data)))
     = ensureStringData (Some data)).
Proof.
  assert (Hfix : ∀ m : gmap string string, m !! "__proto__" = None →
    ensureStringData (Some (JString <$> m)) = m).
  { intros m Hm. apply map_eq. intros k.
    rewrite ensureStringData_lookup, lookup_fmap. case_decide as Hk.
    - by subst k.
    - by destruct (m !! k). }
  split_and!; [| done |].
  - intros data. rewrite ensureStringData_fmap, dom_fmap_L. apply dom_delete_L.
  - intros data. apply Hfix. by rewrite ensureStringData_lookup, decide_True.
Qed.

(** ** Registration and dispatch together *)

(** X14.  After a register request the server accepts, a dispatch to the
    user of the request does not answer 404: it calls the provider once,
    with the tokens of the user's set, and the registered token is among
    them. *)
Theorem registered_token_is_addressed (now : string) (body : Body)
    (u t : string) (st : Store) (data : gmap string JsonValue)
    (android : option JsonValue) (outcome : Exn + BatchResponse) :
  body_userId body = Some u → body_token body = Some t →
  status (response (post_devices_register now body st)) = 200 →
  let st' := store (post_devices_register now body st) in
  let rep := sendToUser u data android outcome st' in
  status (response rep) ≠ 404 ∧
  ∃ m, calls rep = [CallSendEachForMulticast m] ∧
       mc_tokens m = tokensOf u st' ∧ t ∈ mc_tokens m.
Proof.
  intros Hu Ht Hok st' rep.
  assert (Hin : t ∈ tokensOf u st').
  { unfold st', post_devices_register in *. rewrite Hu, Ht in *.
    destruct (negb (truthy u) || negb (truthy t)); [done |]. simpl.
    rewrite tokensOf_upsertToken, decide_True by done.
    apply elem_of_Set_add. by left. }
  assert (Hne : tokensOf u st' ≠ []).
  { intros Heq. rewrite Heq in Hin. by apply elem_of_nil in Hin. }
  unfold rep. rewrite sendToUser_with_tokens by done. split.
  - by destruct outcome.
  - eauto.
Qed.

(** X15.  After an unregister request the server accepts, a dispatch to
    the user of the request never hands the unregistered token to the
    provider. *)
Theorem unregistered_token_not_addressed (body : Body) (u t : string)
    (st : Store) (data : gmap string JsonValue)
    (android : option JsonValue) (outcome : Exn + BatchResponse) :
  body_userId body = Some u → body_token body = Some t →
  status (response (delete_devices_unregister body st)) = 200 →
  let st' := store (delete_devices_unregister body st) in
  ∀ m, CallSendEachForMulticast m ∈ calls (sendToUser u data android outcome st') →
       t ∉ mc_tokens m.
Proof.
  intros Hu Ht Hok st' m Hcall.
  assert (Hnotin : t ∉ tokensOf u st').
  { unfold st', delete_devices_unregister in *. rewrite Hu, Ht in *.
    destruct (truthy u) eqn:Htu, (truthy t); try done. simpl.
    rewrite tokensOf_removeToken, decide_True by done.
    rewrite elem_of_Set_delete. by intros [? _]. }
  destruct (decide (tokensOf u st' = [])) as [Hnone | Hsome].
  - unfold sendToUser, tokensOf in Hcall, Hnone.
    destruct (tokensByUser st' !! u) as [l |];
      [| by apply elem_of_nil in Hcall].
    simpl in Hnone. subst l. by apply elem_of_nil in Hcall.
  - rewrite sendToUser_with_tokens in Hcall by done. simpl in Hcall.
    apply list_elem_of_singleton in Hcall. by injection Hcall as ->.
Qed.


(** ** The classification of a failure *)

Lemma prefix_append (sub post : string) :
  String.prefix sub (sub ++ post)%string = true.
Proof.
  induction sub as [| a sub IH]; simpl; [by destruct post |].
  by destruct (ascii_dec a a).
Qed.

Lemma prefix_inv (sub : string) : ∀ s : string,
  String.prefix sub s = true → ∃ post, s = (sub ++ post)%string.
Proof.
  induction sub as [| a sub IH]; intros s Hpre; simpl in *.
  - by exists s.
  - destruct s as [| b s]; simpl in Hpre; [done |].
    destruct (ascii_dec a b) as [<- | _]; [| done].
    destruct (IH s Hpre) as [post ->]. by exists post.
Qed.

Lemma includes_unfold (s sub : string) :
  includes s sub
  = String.prefix sub s ||
    match s with
    | EmptyString => false
    | String _ rest => includes rest sub
    end.
Proof. by destruct s. Qed.

Lemma includes_spec (s sub : string) :
  includes s sub = true ↔ ∃ pre post, s = (pre ++ sub ++ post)%string.
Proof.
  split.
  - induction s as [| a s IH]; rewrite includes_unfold, orb_true_iff.
    + intros [Hpre | [=]]. apply prefix_inv in Hpre as [post ->].
      by exists EmptyString, post.
    + intros [Hpre | Hrest].
      * apply prefix_inv in Hpre as [post ->]. by exists EmptyString, post.
      * destruct (IH Hrest) as (pre & post & ->).
        by exists (String a pre), post.
  - intros (pre & post & ->). induction pre as [| a pre IH].
    + rewrite includes_unfold.
      change (EmptyString ++ sub ++ post)%string with (sub ++ post)%string.
      by rewrite prefix_append.
    + rewrite includes_unfold.
      change (String a pre ++ sub ++ post)%string
        with (String a (pre ++ sub ++ post))%string.
      cbv iota beta. by rewrite IH, orb_true_r.
Qed.

(** X16.  The cleanup classifies a failure by substring: the code counts
    as that of a token not valid anymore exactly when it contains
    [registration-token-not-registered] or [invalid-argument] somewhere,
    whatever stands before and after; a response that succeeded, and a
    failure without an error or without a code, never make the cleanup
    act. *)
Theorem invalidTokenCode_by_substring :
  (∀ c, invalidTokenCode c = true ↔
     (∃ pre post,
        c = (pre ++ "registration-token-not-registered" ++ post)%string) ∨
     (∃ pre post, c = (pre ++ "invalid-argument" ++ post)%string)) ∧
  (∀ r, success r = true → marksInvalid r = false) ∧
  (∀ r, error r = None ∨ error r = Some (mkSendError None) →
     marksInvalid r = false).
Proof.
  split_and!.
  - intros c. unfold invalidTokenCode.
    by rewrite orb_true_iff, !includes_spec.
  - intros r Hr. unfold marksInvalid. by rewrite Hr.
  - intros r Herr. unfold marksInvalid, errorCode.
    destruct Herr as [-> | ->]; simpl; apply andb_false_r.
Qed.


(** ** What a request leaves alone *)

(** X17.  The three device routes touch one user and at most two tokens:
    the set of every user other than the one the body names is left as it
    is, and so is the metadata of every token other than the token and the
    old token of the body. *)
Theorem device_routes_frame (now : string) (body : Body) (st : Store)
    (u' t' : string) :
  let reg := store (post_devices_register now body st) in
  let upd := store (put_devices_token now body st) in
  let unreg := store (delete_devices_unregister body st) in
  (body_userId body ≠ Some u' →
   tokensByUser reg !! u' = tokensByUser st !! u' ∧
   tokensByUser upd !! u' = tokensByUser st !! u' ∧
   tokensByUser unreg !! u' = tokensByUser st !! u') ∧
  (body_token body ≠ Some t' → body_oldToken body ≠ Some t' →
   metadataOf t' reg = metadataOf t' st ∧
   metadataOf t' upd = metadataOf t' st ∧
   metadataOf t' unreg = metadataOf t' st).
Proof.
  unfold post_devices_register, put_devices_token, delete_devices_unregister.
  destruct (body_userId body) as [u |], (body_token body) as [t |];
    try done.
  destruct (negb (truthy u) || negb (truthy t)); [done |].
  unfold reply. cbn [store]. split.
  - intros Hu. assert (u ≠ u') by congruence. split_and!.
    + by rewrite upsertToken_sets_ne.
    + rewrite upsertToken_sets_ne by done.
      destruct (body_oldToken body) as [old |]; [| done].
      destruct (truthy old && _); [| done]. by rewrite removeToken_sets_ne.
    + by rewrite removeToken_sets_ne.
  - intros Ht Hold. assert (t ≠ t') by congruence.
    unfold metadataOf. split_and!.
    + by rewrite upsertToken_meta, lookup_insert_ne.
    + rewrite upsertToken_meta, lookup_insert_ne by done.
      destruct (body_oldToken body) as [old |]; [| done].
      destruct (truthy old && _); [| done].
      rewrite removeToken_meta, lookup_delete_ne; [done | congruence].
    + by rewrite removeToken_meta, lookup_delete_ne.
Qed.

(** X18.  The provider is never handed an empty array of tokens: after
    every history of requests, a call of [sendEachForMulticast] made by
    the send route carries the set of the user the body names, which has
    at least one token, holds no token twice and no empty token. *)
Theorem multicast_never_empty (evs : list Event) (body : Body)
    (outcome : Exn + BatchResponse) (m : MulticastMessage) :
  let st := run evs empty_store in
  CallSendEachForMulticast m ∈ calls (post_notifications_send body outcome st) →
  mc_tokens m ≠ [] ∧ NoDup (mc_tokens m) ∧
  (∀ t, t ∈ mc_tokens m → t ≠ EmptyString) ∧
  ∃ u, body_userId body = Some u ∧ mc_tokens m = tokensOf u st.
Proof.
  intros st Hcall.
  assert (Hwf : store_wf st) by apply run_wf, store_wf_empty.
  assert (Htr : tokens_truthy st) by apply run_tokens_truthy, tokens_truthy_empty.
  unfold post_notifications_send in Hcall.
  destruct (body_userId body) as [u |], (body_data body) as [d |];
    try (by apply elem_of_nil in Hcall).
  destruct (truthy u); [| by apply elem_of_nil in Hcall]. simpl in Hcall.
  destruct (decide (tokensOf u st = [])) as [Hnone | Hsome].
  - unfold sendToUser, tokensOf in Hcall, Hnone.
    destruct (tokensByUser st !! u) as [l |];
      [| by apply elem_of_nil in Hcall].
    simpl in Hnone. subst l. by apply elem_of_nil in Hcall.
  - rewrite sendToUser_with_tokens in Hcall by done. simpl in Hcall.
    apply list_elem_of_singleton in Hcall. injection Hcall as ->. simpl.
    split_and!; [done | | | by exists u].
    + unfold tokensOf in *.
      destruct (tokensByUser st !! u) as [l |] eqn:Hl; [| done].
      by destruct (proj1 Hwf u l Hl) as (_ & _ & ?).
    + intros t Hin. apply truthy_true. by apply (proj1 Htr u).
Qed.


End Server.

(** * The properties at sample inputs *)

Example stringify_three : JSON_stringify_integral (JNumber 3) = "3".
Proof. reflexivity. Qed.

Example stringify_numbers :
  stringify_number 0 = "0" ∧
  stringify_number (-12) = "-12" ∧
  stringify_number 9007199254740993 = "9007199254740992" ∧
  stringify_number (2 ^ 60) = "1152921504606847000" ∧
  stringify_number (10 ^ 20) = "100000000000000000000" ∧
  stringify_number (10 ^ 21) = "1e+21" ∧
  stringify_number 123456789012345678901234567890 = "1.2345678901234568e+29" ∧
  stringify_number (10 ^ 309) = "null".
Proof. vm_compute. repeat split. Qed.

Example chat_payload_normalised :
  ensureStringData JSON_stringify_integral (Some chat_payload)
  = <["type" := "chat"]> (<["count" := "3"]> ∅).
Proof. vm_compute. reflexivity. Qed.

Example stringify_nested :
  JSON_stringify_integral
    (JObject [("a", JArray [JNumber (-12); JBool true; JNull]);
              ("b", JString "x")])
  = "{" ++ quote_string "a" ++ ":[-12,true,null]," ++ quote_string "b"
        ++ ":" ++ quote_string "x" ++ "}".
Proof. reflexivity. Qed.

Example includes_code :
  includes "messaging/registration-token-not-registered"
    "registration-token-not-registered" = true ∧
  includes "messaging/invalid-argument" "invalid-argument" = true ∧
  includes "messaging/quota-exceeded" "invalid-argument" = false ∧
  includes "abc" EmptyString = true.
Proof. by vm_compute. Qed.

Example two_devices_tokens :
  tokensOf "alice" (run JSON_stringify_integral two_devices empty_store)
  = ["t1"; "t2"].
Proof. vm_compute. reflexivity. Qed.

Example shared_device_state :
  let st := run JSON_stringify_integral shared_device empty_store in
  tokensOf "alice" st = ["t1"; "t2"] ∧ tokensOf "bob" st = ["t1"] ∧
  metadataOf "t1" st = Some (mkMeta "bob" "android" noon).
Proof. vm_compute. done. Qed.

(** C1: a history after which a token is in a user's set and has no
    metadata.  Alice registers [t1], Bob registers the same token and then
    unregisters it: the token is still in Alice's set. *)
Lemma lock_step_counterexample :
  let st := run JSON_stringify_integral handed_over empty_store in
  tokensOf "alice" st = ["t1"] ∧ metadataOf "t1" st = None ∧
  ¬ member_has_meta st.
Proof.
  intros st.
  assert (Hset : tokensOf "alice" st = ["t1"]) by (vm_compute; reflexivity).
  assert (Hmeta : metadataOf "t1" st = None) by (vm_compute; reflexivity).
  split_and!; [done | done |]. intros Hall.
  destruct (Hall "alice" "t1") as [m Hm].
  - rewrite Hset. by left.
  - rewrite Hmeta in Hm. discriminate.
Qed.

Lemma metadata_implies_membership_witness :
  single_owner (λ _, "alice") two_devices ∧
  member_has_meta (run JSON_stringify_integral two_devices empty_store).
Proof.
  assert (Hsingle : single_owner (λ _, "alice") two_devices).
  { intros ev u t Hev Hnamed. unfold two_devices in Hev.
    repeat (apply elem_of_cons in Hev as [-> | Hev]);
      [.. | by apply elem_of_nil in Hev];
      simpl in Hnamed; apply list_elem_of_singleton in Hnamed;
      by injection Hnamed as -> _. }
  split; [exact Hsingle |].
  exact (proj1 (proj2 (proj2
    (metadata_implies_membership JSON_stringify_integral two_devices))
      (λ _, "alice") Hsingle)).
Defined.

(** C3: Alice has [t1] and [t2], and [t1] was since registered by Bob, so
    its metadata names Bob.  The provider reports [t1] as not registered:
    the cleanup takes [t1] out of Bob's set and deletes its metadata, and
    [t1] is still in Alice's set. *)
Lemma cleanup_counterexample :
  let st := run JSON_stringify_integral shared_device empty_store in
  let rep :=
    sendToUser JSON_stringify_integral "alice" chat_payload None
      (inr first_token_stale) st in
  tokensOf "alice" st = ["t1"; "t2"] ∧
  metadataOf "t1" st = Some (mkMeta "bob" "android" noon) ∧
  response rep = mkResponse 200 (JsonCounts 1 1) ∧
  tokensOf "alice" (store rep) = ["t1"; "t2"] ∧
  ¬ ("t1" ∉ tokensOf "alice" (store rep)).
Proof.
  intros st rep.
  assert (Hafter : tokensOf "alice" (store rep) = ["t1"; "t2"])
    by (vm_compute; reflexivity).
  split_and!; try (vm_compute; reflexivity).
  intros Hnotin. apply Hnotin. rewrite Hafter. by left.
Qed.

Lemma sendToUser_cleanup_witness :
  let st := run JSON_stringify_integral two_devices empty_store in
  let rep :=
    sendToUser JSON_stringify_integral "alice" chat_payload None
      (inr first_token_stale) st in
  tokensOf "alice" st = ["t1"; "t2"] ∧
  counts_agree first_token_stale ∧
  response rep = mkResponse 200 (JsonCounts 1 1) ∧
  "t2" ∈ tokensOf "alice" (store rep).
Proof.
  intros st rep.
  assert (Htokens : tokensOf "alice" st = ["t1"; "t2"])
    by (vm_compute; reflexivity).
  assert (Hcounts : counts_agree first_token_stale)
    by (split; reflexivity).
  pose proof (sendToUser_cleanup JSON_stringify_integral two_devices
    "alice" "t1" "t2" chat_payload None first_token_stale _ _
    Htokens eq_refl eq_refl eq_refl eq_refl Hcounts) as (Hres & _ & Hin & _).
  split_and!; [exact Htokens | exact Hcounts | exact Hres | exact Hin].
Defined.

Lemma sendToUser_no_tokens_witness :
  tokensOf "nobody" empty_store = [] ∧
  sendToUser JSON_stringify_integral "nobody" chat_payload None
    (inr first_token_stale) empty_store
  = mkReply (mkResponse 404 (JsonError "No tokens for this user"))
      empty_store [].
Proof.
  split; [reflexivity |].
  exact (proj1 (sendToUser_no_tokens JSON_stringify_integral "nobody"
    chat_payload None (inr first_token_stale) empty_store eq_refl)).
Defined.

Lemma ensureStringData_spec_witness :
  JSON_stringify_integral (JNumber 3) = "3" ∧
  ensureStringData JSON_stringify_integral (Some chat_payload)
  = <["type" := "chat"]> (<["count" := "3"]> ∅).
Proof.
  split; [reflexivity |].
  exact (proj1 (proj2 (proj2 (proj2 (proj2 (proj2 (proj2
    (ensureStringData_spec JSON_stringify_integral))))))) eq_refl).
Defined.

Lemma upsert_idempotent_witness :
  let st1 := upsertToken noon "alice" "t1" None empty_store in
  let st2 := upsertToken "2024-01-02T08:30:00.000Z" "alice" "t1" None st1 in
  "t2" ≠ "t1" ∧ metadataOf "t2" st2 = metadataOf "t2" st1.
Proof.
  intros st1 st2.
  assert (Hne : "t2" ≠ "t1") by discriminate.
  split; [exact Hne |].
  exact (proj2 (proj2 (proj2 (proj2
    (upsert_idempotent noon "2024-01-02T08:30:00.000Z" "alice" "t1" None
       empty_store)))) "t2" Hne).
Defined.

Lemma removeToken_undoes_upsert_witness :
  let st' :=
    removeToken "alice" "t1" (upsertToken noon "alice" "t1" None empty_store) in
  let st := run JSON_stringify_integral two_devices empty_store in
  truthy "alice" = true ∧
  ("t1" ∉ tokensOf "alice" st') ∧ metadataOf "t1" st' = None ∧
  ("t9" ∉ tokensOf "alice" st) ∧ metadataOf "t9" st = None ∧
  removeToken "alice" "t9" st = st.
Proof.
  intros st' st.
  destruct (removeToken_undoes_upsert JSON_stringify_integral)
    as (Hundo & _ & _ & Hnoop).
  destruct (Hundo noon "alice" "t1" None empty_store eq_refl) as [H1 H2].
  assert (Hnotin : "t9" ∉ tokensOf "alice" st).
  { unfold st. rewrite two_devices_tokens.
    intros Hin. repeat (apply elem_of_cons in Hin as [Hin | Hin]; [discriminate |]).
    by apply elem_of_nil in Hin. }
  assert (Hmeta : metadataOf "t9" st = None) by (vm_compute; reflexivity).
  split_and!; [reflexivity | exact H1 | exact H2 | exact Hnotin | exact Hmeta |].
  exact (Hnoop two_devices "alice" "t9" Hnotin Hmeta).
Defined.

Lemma no_empty_token_sets_witness :
  let st :=
    run JSON_stringify_integral [Register noon (device_body "alice" "t1")]
      empty_store in
  tokensOf "alice" st = ["t1"] ∧
  tokensByUser (removeToken "alice" "t1" st) !! "alice" = None.
Proof.
  intros st.
  assert (Hone : tokensOf "alice" st = ["t1"]) by (vm_compute; reflexivity).
  split; [exact Hone |].
  exact (proj2 (proj2 (proj2
    (no_empty_token_sets JSON_stringify_integral
       [Register noon (device_body "alice" "t1")]))) "alice" "t1" Hone).
Defined.

Lemma sendToToken_spec_witness :
  let body := mkBody None (Some "t1") None None (Some chat_payload) None in
  body_token body = Some "t1" ∧ truthy "t1" = true ∧
  body_data body = Some chat_payload ∧
  response (post_notifications_sendToToken JSON_stringify_integral body
              (inr "msg-42") empty_store)
  = mkResponse 200 (JsonMessageId "msg-42").
Proof.
  intros body.
  destruct (sendToToken_spec JSON_stringify_integral "t1" chat_payload None
    empty_store) as (Hid & _ & _ & _ & Hroute).
  split_and!; [reflexivity | reflexivity | reflexivity |].
  rewrite (Hroute body (inr "msg-42") eq_refl eq_refl eq_refl eq_refl).
  exact (Hid "msg-42").
Defined.

Lemma sendToUser_provider_error_witness :
  let st := run JSON_stringify_integral two_devices empty_store in
  tokensOf "alice" st ≠ [] ∧
  sendToUser JSON_stringify_integral "alice" chat_payload None
    (inl "Error: quota exceeded") st
  = mkReply (mkResponse 500 (JsonError "Error: quota exceeded")) st
      [CallSendEachForMulticast
         (mkMulticast (tokensOf "alice" st)
            (ensureStringData JSON_stringify_integral (Some chat_payload))
            (or_json None high_priority))].
Proof.
  intros st.
  assert (Hne : tokensOf "alice" st ≠ []).
  { unfold st. rewrite two_devices_tokens. discriminate. }
  split; [exact Hne |].
  exact (proj1 (proj2 (sendToUser_provider_error JSON_stringify_integral
    "alice" chat_payload None "Error: quota exceeded" st)) Hne).
Defined.

(** * The further properties at sample inputs *)

Example two_devices_single_owner : single_owner (λ _, "alice") two_devices.
Proof.
  intros ev u t Hev Hnamed. unfold two_devices in Hev.
  repeat (apply elem_of_cons in Hev as [-> | Hev]);
    [.. | by apply elem_of_nil in Hev];
    simpl in Hnamed; apply list_elem_of_singleton in Hnamed;
    by injection Hnamed as -> _.
Qed.

Lemma removeToken_upsertToken_commute_witness :
  let st := run JSON_stringify_integral two_devices empty_store in
  "t1" ≠ "t3" ∧
  removeToken "alice" "t1" (upsertToken noon "alice" "t3" None st)
  = upsertToken noon "alice" "t3" None (removeToken "alice" "t1" st).
Proof.
  intros st. assert (Hne : "t1" ≠ "t3") by discriminate.
  split; [exact Hne |].
  exact (removeToken_upsertToken_commute noon "alice" "t1" "alice" "t3" None
           st Hne).
Defined.

Lemma dispatch_only_removes_witness :
  let st := run JSON_stringify_integral two_devices empty_store in
  let st' :=
    store (sendToUser JSON_stringify_integral "alice" chat_payload None
             (inr first_token_stale) st) in
  "t2" ∈ tokensOf "alice" st' ∧ "t2" ∈ tokensOf "alice" st.
Proof.
  intros st st'.
  assert (Hin : "t2" ∈ tokensOf "alice" st').
  { replace (tokensOf "alice" st') with ["t2"] by (vm_compute; reflexivity).
    by left. }
  split; [exact Hin |].
  exact (proj1 (proj1 (dispatch_only_removes JSON_stringify_integral "alice"
    chat_payload None st) (inr first_token_stale)) "alice" "t2" Hin).
Defined.

Lemma sendToUser_other_failures_keep_tokens_witness :
  let st := run JSON_stringify_integral two_devices empty_store in
  (∀ r, r ∈ responses first_token_throttled → marksInvalid r = false) ∧
  store (sendToUser JSON_stringify_integral "alice" chat_payload None
           (inr first_token_throttled) st) = st.
Proof.
  intros st.
  assert (Hall : ∀ r, r ∈ responses first_token_throttled →
                      marksInvalid r = false).
  { intros r Hr. simpl in Hr.
    repeat (apply elem_of_cons in Hr as [-> | Hr]); [reflexivity .. |].
    by apply elem_of_nil in Hr. }
  split; [exact Hall |].
  exact (sendToUser_other_failures_keep_tokens JSON_stringify_integral
           "alice" chat_payload None first_token_throttled st Hall).
Defined.

Lemma cleanup_deletes_marked_metadata_witness :
  let st := run JSON_stringify_integral two_devices empty_store in
  let rep :=
    sendToUser JSON_stringify_integral "alice" chat_payload None
      (inr first_token_stale) st in
  marked (tokensOf "alice" st) 0 (responses first_token_stale) "t1" ∧
  metadataOf "t1" (store rep) = None.
Proof.
  intros st rep.
  assert (Hmarked :
    marked (tokensOf "alice" st) 0 (responses first_token_stale) "t1").
  { eexists 0, _. split_and!; [reflexivity | | reflexivity].
    vm_compute. reflexivity. }
  split; [exact Hmarked |].
  exact (proj1 (cleanup_deletes_marked_metadata JSON_stringify_integral
    two_devices "alice" chat_payload None first_token_stale "t1") Hmarked).
Defined.

Lemma cleanup_removes_exactly_marked_witness :
  let st := run JSON_stringify_integral two_devices empty_store in
  let rep :=
    sendToUser JSON_stringify_integral "alice" chat_payload None
      (inr first_token_stale) st in
  single_owner (λ _, "alice") two_devices ∧
  ("t2" ∈ tokensOf "alice" (store rep) ↔
   "t2" ∈ tokensOf "alice" st ∧
   ¬ marked (tokensOf "alice" st) 0 (responses first_token_stale) "t2").
Proof.
  intros st rep. split; [exact two_devices_single_owner |].
  exact (cleanup_removes_exactly_marked JSON_stringify_integral
           (λ _, "alice") two_devices "alice" chat_payload None
           first_token_stale "alice" "t2" two_devices_single_owner).
Defined.

Lemma device_routes_check_fields_witness :
  let body := mkBody None (Some "t1") None None None None in
  (missing (body_userId body) ∨ missing (body_token body)) ∧
  rejected (post_devices_register noon body empty_store) empty_store.
Proof.
  intros body.
  assert (Hmiss : missing (body_userId body) ∨ missing (body_token body))
    by (left; left; reflexivity).
  split; [exact Hmiss |].
  exact (proj1 (proj1 (device_routes_check_fields noon body empty_store)
                  Hmiss)).
Defined.

Lemma dispatch_routes_check_fields_witness :
  let body := device_body "alice" "t1" in
  (missing (body_userId body) ∨ body_data body = None) ∧
  rejected
    (post_notifications_send JSON_stringify_integral body
       (inr first_token_stale) empty_store) empty_store.
Proof.
  intros body.
  assert (Hmiss : missing (body_userId body) ∨ body_data body = None)
    by (right; reflexivity).
  split; [exact Hmiss |].
  exact (proj1 (dispatch_routes_check_fields JSON_stringify_integral body
                  empty_store) (inr first_token_stale) Hmiss).
Defined.

Lemma put_devices_token_replaces_witness :
  let st := run JSON_stringify_integral two_devices empty_store in
  let st' := store (put_devices_token noon refresh_body st) in
  "t1" ≠ "t3" ∧
  tokensOf "alice" st' = Set_add "t3" (Set_delete "t1" (tokensOf "alice" st)) ∧
  tokensOf "alice" st' = ["t2"; "t3"].
Proof.
  intros st st'. assert (Hne : "t1" ≠ "t3") by discriminate.
  split_and!; [exact Hne | | vm_compute; reflexivity].
  exact (proj1 (put_devices_token_replaces noon refresh_body "alice" "t3" "t1"
    st eq_refl eq_refl eq_refl eq_refl eq_refl eq_refl Hne)).
Defined.

Lemma put_devices_token_as_register_witness :
  let body := device_body "alice" "t1" in
  (missing (body_oldToken body) ∨ body_oldToken body = body_token body) ∧
  put_devices_token noon body empty_store
  = post_devices_register noon body empty_store.
Proof.
  intros body.
  assert (Hold : missing (body_oldToken body) ∨
                 body_oldToken body = body_token body)
    by (left; left; reflexivity).
  split; [exact Hold |].
  exact (put_devices_token_as_register noon body empty_store Hold).
Defined.

Lemma stored_strings_nonempty_witness :
  let st := run JSON_stringify_integral two_devices empty_store in
  is_Some (tokensByUser st !! "alice") ∧ "alice" ≠ EmptyString.
Proof.
  intros st.
  assert (Hkey : is_Some (tokensByUser st !! "alice"))
    by (eexists; vm_compute; reflexivity).
  split; [exact Hkey |].
  exact (proj1 (stored_strings_nonempty JSON_stringify_integral two_devices)
           "alice" Hkey).
Defined.

Lemma registered_token_is_addressed_witness :
  let body := device_body "alice" "t1" in
  let st' := store (post_devices_register noon body empty_store) in
  status (response (post_devices_register noon body empty_store)) = 200 ∧
  status (response (sendToUser JSON_stringify_integral "alice" chat_payload
                      None (inr first_token_stale) st')) ≠ 404.
Proof.
  intros body st'. split; [reflexivity |].
  exact (proj1 (registered_token_is_addressed JSON_stringify_integral noon
    body "alice" "t1" empty_store chat_payload None (inr first_token_stale)
    eq_refl eq_refl eq_refl)).
Defined.

Lemma unregistered_token_not_addressed_witness :
  let st := run JSON_stringify_integral two_devices empty_store in
  let body := device_body "alice" "t1" in
  let st' := store (delete_devices_unregister body st) in
  let m := mkMulticast ["t2"]
             (ensureStringData JSON_stringify_integral (Some chat_payload))
             high_priority in
  status (response (delete_devices_unregister body st)) = 200 ∧
  CallSendEachForMulticast m
    ∈ calls (sendToUser JSON_stringify_integral "alice" chat_payload None
               (inr first_token_throttled) st') ∧
  "t1" ∉ mc_tokens m.
Proof.
  intros st body st' m.
  assert (Hcall : CallSendEachForMulticast m
    ∈ calls (sendToUser JSON_stringify_integral "alice" chat_payload None
               (inr first_token_throttled) st')).
  { replace (calls _) with [CallSendEachForMulticast m]
      by (vm_compute; reflexivity).
    by left. }
  split_and!; [reflexivity | exact Hcall |].
  exact (unregistered_token_not_addressed JSON_stringify_integral body
    "alice" "t1" st chat_payload None (inr first_token_throttled)
    eq_refl eq_refl eq_refl m Hcall).
Defined.

Lemma invalidTokenCode_by_substring_witness :
  (∃ pre post,
     "messaging/invalid-argument" = (pre ++ "invalid-argument" ++ post)%string) ∧
  invalidTokenCode "messaging/invalid-argument" = true.
Proof.
  assert (Hsub : ∃ pre post,
    "messaging/invalid-argument" = (pre ++ "invalid-argument" ++ post)%string)
    by (exists "messaging/", EmptyString; reflexivity).
  split; [exact Hsub |].
  exact (proj2 (proj1 invalidTokenCode_by_substring
                  "messaging/invalid-argument") (or_intror Hsub)).
Defined.

Lemma device_routes_frame_witness :
  let st := run JSON_stringify_integral two_devices empty_store in
  let body := device_body "bob" "t7" in
  body_userId body ≠ Some "alice" ∧
  tokensByUser (store (post_devices_register noon body st)) !! "alice"
  = tokensByUser st !! "alice".
Proof.
  intros st body.
  assert (Hne : body_userId body ≠ Some "alice") by discriminate.
  split; [exact Hne |].
  exact (proj1 (proj1 (device_routes_frame noon body st "alice" "t1") Hne)).
Defined.

Lemma multicast_never_empty_witness :
  let st := run JSON_stringify_integral two_devices empty_store in
  let m := mkMulticast ["t1"; "t2"]
             (ensureStringData JSON_stringify_integral (Some chat_payload))
             high_priority in
  CallSendEachForMulticast m
    ∈ calls (post_notifications_send JSON_stringify_integral send_body
               (inr first_token_throttled) st) ∧
  mc_tokens m ≠ [].
Proof.
  intros st m.
  assert (Hcall : CallSendEachForMulticast m
    ∈ calls (post_notifications_send JSON_stringify_integral send_body
               (inr first_token_throttled) st)).
  { replace (calls _) with [CallSendEachForMulticast m]
      by (vm_compute; reflexivity).
    by left. }
  split; [exact Hcall |].
  exact (proj1 (multicast_never_empty JSON_stringify_integral two_devices
                  send_body (inr first_token_throttled) m Hcall)).
Defined.

Lemma ensureStringData_strings_fixed_witness :
  let m : gmap string string := <["type" := "chat"]> (<["count" := "3"]> ∅) in
  m !! "__proto__" = None ∧
  ensureStringData JSON_stringify_integral (Some (JString <$> m)) = m.
Proof.
  intros m.
  assert (Hm : m !! "__proto__" = None) by (vm_compute; reflexivity).
  split; [exact Hm |].
  exact (proj1 (proj2 (ensureStringData_strings_fixed JSON_stringify_integral))
           m Hm).
Defined.
